(** * ai-gmail-sorter: a shallow embedding of the classification pipeline

    The development follows the TypeScript sources:
    - [api/gmail.ts]     : [parseEmailBody], [getEmailsForLabel],
                           [getEmailContent], [applyLabelToEmail];
    - [ml/classifier.ts] : [createVocabulary], [padSequence],
                           [textToSequence], [trainModel], [Classifier];
    - [server.ts]        : the [/webhook] handler.

    JavaScript strings are sequences of UTF-16 code units, plain objects
    are insertion-ordered property lists that inherit from
    [Object.prototype], and code that awaits the mail provider, the file
    system or TensorFlow runs in a small monad that records every
    outward call. *)

From Stdlib Require Import ZArith NArith Lia.
From stdpp Require Import gmap strings list sorting.

Open Scope string_scope.
Open Scope list_scope.
Open Scope nat_scope.

(** ** JavaScript strings *)

Module Js.

(** A string is the list of its UTF-16 code units. *)
Abbreviation jsstring := (list N).

(** [lit "abc"] is the JavaScript literal ["abc"] (ASCII source text). *)
Definition lit (s : string) : jsstring :=
  (fun a => Ascii.N_of_ascii a) <$> String.list_ascii_of_string s.

(** The class [\s] of a regular expression without the [u] flag, which is
    also the set removed by [String.prototype.trim]: WhiteSpace and
    LineTerminator code points. *)
Definition isWhiteSpace (c : N) : bool :=
  ((9 <=? c) && (c <=? 13)          (* TAB LF VT FF CR *)
   || (c =? 32)                     (* SP *)
   || (c =? 160)                    (* NBSP *)
   || (c =? 5760)                   (* U+1680 *)
   || ((8192 <=? c) && (c <=? 8202))  (* U+2000 .. U+200A *)
   || (c =? 8232) || (c =? 8233)    (* LS PS *)
   || (c =? 8239)                   (* U+202F *)
   || (c =? 8287)                   (* U+205F *)
   || (c =? 12288)                  (* U+3000 *)
   || (c =? 65279))%N.              (* U+FEFF *)

(** The class [\w]: [A-Za-z0-9_]. *)
Definition isWordChar (c : N) : bool :=
  ((48 <=? c) && (c <=? 57)
   || (65 <=? c) && (c <=? 90)
   || (c =? 95)
   || (97 <=? c) && (c <=? 122))%N.

(** [s.replace(/\s+/g, r)]: every maximal run of white space becomes [r].
    [inRun] tells whether the previous code unit was white space. *)
Fixpoint replaceWsFrom (r : jsstring) (inRun : bool) (s : jsstring) : jsstring :=
  match s with
  | [] => []
  | c :: s' =>
      if isWhiteSpace c
      then (if inRun then replaceWsFrom r true s'
            else r ++ replaceWsFrom r true s')
      else c :: replaceWsFrom r false s'
  end.

Definition replaceWs (r s : jsstring) : jsstring := replaceWsFrom r false s.

Fixpoint trimStart (s : jsstring) : jsstring :=
  match s with
  | [] => []
  | c :: s' => if isWhiteSpace c then trimStart s' else s
  end.

Definition trimEnd (s : jsstring) : jsstring := reverse (trimStart (reverse s)).

(** [s.trim()] *)
Definition trim (s : jsstring) : jsstring := trimEnd (trimStart s).

(** [s.replace(/[^\w\s]/g, "")] *)
Definition stripNonWord (s : jsstring) : jsstring :=
  filter (fun c => isWordChar c || isWhiteSpace c = true) s.

(** [s.split(/\s+/)]: the pieces between maximal runs of white space; a
    run at either end yields an empty first or last piece, and the empty
    string splits into one empty piece. [cur] is the piece being read. *)
Fixpoint splitWsFrom (cur : jsstring) (inRun : bool) (s : jsstring) : list jsstring :=
  match s with
  | [] => [cur]
  | c :: s' =>
      if isWhiteSpace c
      then (if inRun then splitWsFrom [] true s'
            else cur :: splitWsFrom [] true s')
      else splitWsFrom (cur ++ [c]) false s'
  end.

Definition splitWs (s : jsstring) : list jsstring := splitWsFrom [] false s.

(** [s.replace(" ", "-")] with a string pattern: first occurrence only. *)
Fixpoint replaceFirstSpace (s : jsstring) : jsstring :=
  match s with
  | [] => []
  | c :: s' => if (c =? 32)%N then 45%N :: s' else c :: replaceFirstSpace s'
  end.

(** A non-empty string is truthy. *)
Definition nonEmpty (s : jsstring) : bool :=
  match s with [] => false | _ => true end.

(** What the sources take from the JavaScript runtime.
    [toLowerCase] is [String.prototype.toLowerCase] (Unicode case
    mapping), [base64ToUtf8 d] is
    [Buffer.from(d, "base64").toString("utf8")]. *)
Class Runtime := {
  toLowerCase : jsstring -> jsstring;
  base64ToUtf8 : jsstring -> jsstring;
}.

(** On strings of ASCII code units [toLowerCase] is this function. *)
Definition asciiLower (c : N) : N :=
  if ((65 <=? c) && (c <=? 90))%N then (c + 32)%N else c.

End Js.

(** ** JavaScript values and plain objects *)

Module Obj.
Import Js.

(** The objects a plain object inherits from [Object.prototype]. *)
Inductive builtin :=
  | ObjectConstructor               (* [Object], found under "constructor" *)
  | ObjectPrototype                 (* what the "__proto__" getter returns *)
  | PrototypeMethod (name : string).

Inductive value :=
  | VUndefined
  | VNumber (n : Z)
  | VNaN
  | VString (s : jsstring)
  | VBuiltin (b : builtin).

(** A plain object ([{}], an object literal, the result of [JSON.parse]):
    its own enumerable data properties in insertion order. Its prototype
    is [Object.prototype]. *)
Definition object := list (jsstring * value).

Fixpoint getOwn (o : object) (k : jsstring) : option value :=
  match o with
  | [] => None
  | (k', v) :: o' => if decide (k' = k) then Some v else getOwn o' k
  end.

Definition prototypeMethods : list string :=
  [ "__defineGetter__"; "__defineSetter__"; "hasOwnProperty";
    "__lookupGetter__"; "__lookupSetter__"; "isPrototypeOf";
    "propertyIsEnumerable"; "toString"; "valueOf"; "toLocaleString" ].

(** The properties of [Object.prototype], seen through every plain
    object that has no own property of that name. *)
Definition getInherited (k : jsstring) : value :=
  if decide (k = lit "constructor") then VBuiltin ObjectConstructor
  else if decide (k = lit "__proto__") then VBuiltin ObjectPrototype
  else match List.find (fun m => bool_decide (lit m = k)) prototypeMethods with
       | Some m => VBuiltin (PrototypeMethod m)
       | None => VUndefined
       end.

(** [o[k]] *)
Definition get (o : object) (k : jsstring) : value :=
  match getOwn o k with
  | Some v => v
  | None => getInherited k
  end.

Fixpoint setOwn (o : object) (k : jsstring) (v : value) : object :=
  match o with
  | [] => [(k, v)]
  | (k', v') :: o' =>
      if decide (k' = k) then (k, v) :: o' else (k', v') :: setOwn o' k v
  end.

(** [o[k] = v] for a number or a string [v]. The inherited data
    properties are writable, so the assignment creates an own property;
    "__proto__" is an accessor, reached when the object has no own
    property of that name, and its setter ignores a value that is not
    an object. *)
Definition set (o : object) (k : jsstring) (v : value) : object :=
  if decide (k = lit "__proto__")
  then match getOwn o k with
       | Some _ => setOwn o k v
       | None => o
       end
  else setOwn o k v.

Definition isDigit (c : N) : bool := ((48 <=? c) && (c <=? 57))%N.

Definition digitsValue (s : jsstring) : N :=
  foldl (fun acc c => 10 * acc + (c - 48))%N 0%N s.

(** The array index a property name denotes, if any: the canonical
    decimal form of an integer below [2^32 - 1]. *)
Definition arrayIndex (k : jsstring) : option N :=
  match k with
  | [] => None
  | c :: rest =>
      if forallb isDigit k && (negb (c =? 48)%N || negb (nonEmpty rest))
      then (if (digitsValue k <? 4294967295)%N then Some (digitsValue k) else None)
      else None
  end.

(** [Array.prototype.sort(compareFn)] is stable. [after x y] says that
    [compareFn(x, y) > 0], so that [x] goes behind [y]. When [compareFn]
    is a consistent comparator every engine returns this list; otherwise
    the order is left to the engine and this is one admissible result. *)
Fixpoint insertSorted {A} (after : A -> A -> bool) (x : A) (l : list A) : list A :=
  match l with
  | [] => [x]
  | y :: l' => if after x y then y :: insertSorted after x l' else x :: l
  end.

Definition stableSort {A} (after : A -> A -> bool) (l : list A) : list A :=
  foldr (insertSorted after) [] l.

Definition indexAfter (a b : jsstring) : bool :=
  match arrayIndex a, arrayIndex b with
  | Some m, Some n => (n <? m)%N
  | _, _ => false
  end.

(** [Object.keys(o)]: array-index names in ascending numeric order, then
    the other names in insertion order. *)
Definition keys (o : object) : list jsstring :=
  stableSort indexAfter (List.filter (fun k => bool_decide (is_Some (arrayIndex k))) o.*1)
  ++ List.filter (fun k => negb (bool_decide (is_Some (arrayIndex k)))) o.*1.

Definition truthy (v : value) : bool :=
  match v with
  | VUndefined => false
  | VNumber n => negb (n =? 0)%Z
  | VNaN => false
  | VString s => nonEmpty s
  | VBuiltin _ => true
  end.

(** [a || b] *)
Definition or (a b : value) : value := if truthy a then a else b.

(** The string an inherited object turns into under [+]. The layout of
    the text of a native function is the engine's; this is V8's. *)
Definition builtinSource (b : builtin) : jsstring :=
  match b with
  | ObjectConstructor => lit "function Object() { [native code] }"
  | ObjectPrototype => lit "[object Object]"
  | PrototypeMethod m => lit ("function " +:+ m +:+ "() { [native code] }")
  end.

(** [v + 1] *)
Definition plusOne (v : value) : value :=
  match v with
  | VNumber n => VNumber (n + 1)
  | VUndefined | VNaN => VNaN
  | VString s => VString (s ++ lit "1")
  | VBuiltin b => VString (builtinSource b ++ lit "1")
  end.

(** [Number(v)], [None] for NaN. Of the numeric strings only the empty
    one and plain decimal digits are decoded: the strings that reach
    this function begin with the text of an inherited object. *)
Definition toNumber (v : value) : option Z :=
  match v with
  | VNumber n => Some n
  | VString s =>
      let t := trim s in
      if forallb isDigit t then Some (Z.of_N (digitsValue t)) else None
  | VUndefined | VNaN | VBuiltin _ => None
  end.

(** [a - b] *)
Definition minus (a b : value) : value :=
  match toNumber a, toNumber b with
  | Some x, Some y => VNumber (x - y)
  | _, _ => VNaN
  end.

(** Whether a comparator result is a number above zero. *)
Definition positive (v : value) : bool :=
  match v with
  | VNumber n => (0 <? n)%Z
  | _ => false
  end.

End Obj.


(** ** Outward calls and the monad that records them *)

Module Io.
Import Js Obj.

(** What [ml/classifier.ts] takes from [@tensorflow/tfjs-node]. A
    [LayersModel] is a network with its weights.
    [fit xs numericLabels numClasses] is [createModel(numClasses)]
    followed by the two tensors and [model.fit]; [None] when one of them
    throws. [predictIndex m sequence] is
    [m.predict(tf.tensor2d([sequence])).argMax(-1).dataSync()[0]]. *)
Class TensorFlow := {
  LayersModel : Type;
  fit : list (list value) -> list value -> nat -> option LayersModel;
  predictIndex : LayersModel -> list value -> option nat;
}.

Section Effects.
Context `{TensorFlow}.

(** An entry of the model directory, by what it holds: the JSON file of
    a vocabulary or of a label list; the directory that
    [model.save(path)] makes of [path], with the model.json and the
    weights.bin of the model inside it; or a model.json file, with the
    weights it names beside it, which is what [tf.loadLayersModel]
    reads. *)
Inductive file :=
  | VocabularyJson (vocabulary : object)
  | LabelsJson (labels : list jsstring)
  | ModelFiles (model : LayersModel)
  | ModelJson (model : LayersModel).

(** The calls to the console, the file system, TensorFlow and the mail
    provider. [console.log] is not recorded. *)
Inductive effect :=
  | ConsoleError (msg : jsstring)
  | ConsoleWarn (msg : jsstring)
  | Mkdir (path : string)
  | WriteFile (path : string) (data : file)
  | ModelFit
  | ModelSave (path : string) (model : LayersModel)
  | ModelPredict (sequence : list value)
  | MessagesList (q : jsstring) (maxResults : nat) (pageToken : option jsstring)
  | MessagesGet (id : jsstring)
  | HistoryList (startHistoryId : N)
  | LabelsList
  | MessagesModify (id : jsstring) (addLabelId : jsstring).

Inductive result (A : Type) :=
  | Ok (a : A)
  | Thrown
  | OutOfFuel.

(** A computation appends its calls to the log and returns, throws, or
    is cut off by the step bound of a loop. *)
Definition io (A : Type) := list effect -> result A * list effect.

Definition ret {A} (a : A) : io A := fun log => (Ok _ a, log).

Definition throw {A} : io A := fun log => (Thrown _, log).

Definition outOfFuel {A} : io A := fun log => (OutOfFuel _, log).

Definition bind {A B} (m : io A) (k : A -> io B) : io B :=
  fun log =>
    match m log with
    | (Ok _ a, log') => k a log'
    | (Thrown _, log') => (Thrown B, log')
    | (OutOfFuel _, log') => (OutOfFuel B, log')
    end.

(** [try { m } catch (error) { handler }] *)
Definition tryCatch {A} (m : io A) (handler : io A) : io A :=
  fun log =>
    match m log with
    | (Thrown _, log') => handler log'
    | r => r
    end.

Definition emit (e : effect) : io unit := fun log => (Ok unit tt, log ++ [e]).

(** [await] of a call that was issued as [e] and answered by [answer];
    [None] is a rejected promise. *)
Definition call {A} (e : effect) (answer : option A) : io A :=
  fun log =>
    match answer with
    | Some a => (Ok A a, log ++ [e])
    | None => (Thrown A, log ++ [e])
    end.

(** The model directory after the calls of a log. [fs.writeFile] puts
    a file under the path it is given; [model.save] of tfjs-node takes
    the path of its URL for a directory and puts the model's two files
    into it, which is the one entry [ModelFiles] under that name. *)
Definition perform (e : effect) (s : gmap string file) : gmap string file :=
  match e with
  | WriteFile path data => <[path := data]> s
  | ModelSave path model => <[path := ModelFiles model]> s
  | _ => s
  end.

Definition replay (log : list effect) (s : gmap string file) : gmap string file :=
  foldl (fun s e => perform e s) s log.

End Effects.

(** The model directory: what lies under each name the program passes
    to [fs] and to TensorFlow. *)
Abbreviation store := (gmap string file).

Arguments Ok {A} a.
Arguments Thrown {A}.
Arguments OutOfFuel {A}.

Declare Scope io_scope.
Delimit Scope io_scope with io.
Notation "x <- m ;; k" := (bind m (fun x => k))
  (at level 100, m at next level, right associativity) : io_scope.
Notation "m ;;; k" := (bind m (fun _ => k))
  (at level 100, right associativity) : io_scope.

End Io.

(** ** api/gmail.ts *)

Module Gmail.
Import Js Obj Io.

#[local] Set Warnings "-register-all".

(** [gmail_v1.Schema$MessagePart]; [bodyData] is [part.body?.data]. *)
Inductive MessagePart := mkPart {
  mimeType : option jsstring;
  bodyData : option jsstring;
  parts : option (list MessagePart);
}.

(** [q] is one of the parts [ps] or lies below one of them. *)
Inductive within (q : MessagePart) : list MessagePart -> Prop :=
  | within_here ps : q ∈ ps -> within q ps
  | within_below p sub ps : p ∈ ps -> parts p = Some sub -> within q sub -> within q ps.

Record Header := { headerName : option jsstring; headerValue : option jsstring }.

Record Payload := {
  headers : option (list Header);
  payloadParts : option (list MessagePart);
}.

Record Message := { messageId : option jsstring; payload : option Payload }.

Record ListResponse := {
  messages : option (list Message);
  nextPageToken : option jsstring;
}.

Record MessageAdded := { message : option Message }.
Record History := { messagesAdded : option (list MessageAdded) }.
Record HistoryResponse := { history : option (list History) }.

Record Label := { labelId : option jsstring; labelName : option jsstring }.

(** The part of [gmail_v1.Gmail] the sources call. The outer [None] is a
    rejected promise; [messagesGet] answers with [email.data] and
    [labelsList] with [res.data.labels], either of which may be
    undefined. *)
Class Api := {
  messagesList : jsstring -> nat -> option jsstring -> option ListResponse;
  messagesGet : jsstring -> option (option Message);
  historyList : N -> option HistoryResponse;
  labelsList : option (option (list Label));
  messagesModify : jsstring -> jsstring -> option unit;
}.

(** [{ content: string; label: string }] *)
Record Document := { content : jsstring; label : jsstring }.

(** An optional string is truthy when it is present and not empty. *)
Definition present (s : option jsstring) : option jsstring :=
  match s with
  | Some (c :: s') => Some (c :: s')
  | _ => None
  end.

(** A part that holds plain text with data [data]. *)
Definition plainText (q : MessagePart) (data : jsstring) : Prop :=
  mimeType q = Some (lit "text/plain") /\ present (bodyData q) = Some data.

Section WithApi.
Context `{Runtime} `{TensorFlow} `{Api}.

(** The body of the [for (const part of parts)] loop of [parseEmailBody]:
    [Some r] when it returns [r], [None] when it goes on to the next
    part. *)
Fixpoint parsePart (part : MessagePart) : option jsstring :=
  match part with
  | mkPart mimeType bodyData parts =>
      match bool_decide (mimeType = Some (lit "text/plain")), present bodyData with
      | true, Some data => Some (base64ToUtf8 data)
      | _, _ =>
          match parts with
          | Some subparts =>
              let body :=
                (fix loop (ps : list MessagePart) : jsstring :=
                   match ps with
                   | [] => []
                   | p :: rest =>
                       match parsePart p with
                       | Some r => r
                       | None => loop rest
                       end
                   end) subparts in
              if nonEmpty body then Some body else None
          | None => None
          end
      end
  end.

(** The loop itself, which returns [""] when no part returns. *)
Fixpoint parseLoop (ps : list MessagePart) : jsstring :=
  match ps with
  | [] => []
  | p :: rest =>
      match parsePart p with
      | Some r => r
      | None => parseLoop rest
      end
  end.

Definition parseEmailBody (parts : option (list MessagePart)) : jsstring :=
  match parts with
  | None => []
  | Some ps => parseLoop ps
  end.

(** [headers?.find((h) => h.name === "Subject")?.value || ""] *)
Definition subjectOf (headers : option (list Header)) : jsstring :=
  match headers with
  | None => []
  | Some hs =>
      match List.find (fun h => bool_decide (headerName h = Some (lit "Subject"))) hs with
      | Some h => default [] (headerValue h)
      | None => []
      end
  end.

Definition emailSubject (email : Message) : jsstring :=
  subjectOf (payload email ≫= headers).

Definition emailBody (email : Message) : jsstring :=
  parseEmailBody (payload email ≫= payloadParts).

(** [`${subject} ${body}`.replace(/\s+/g, " ").trim()], the document
    text of [getEmailsForLabel]. *)
Definition trainingText (subject body : jsstring) : jsstring :=
  trim (replaceWs (lit " ") (subject ++ lit " " ++ body)).

(** [`${subject} ${body}`.replace(/\s+/g, "").trim()], the document text
    of [getEmailContent]. *)
Definition inferenceText (subject body : jsstring) : jsstring :=
  trim (replaceWs (lit "") (subject ++ lit " " ++ body)).

Definition knownCategories : list jsstring :=
  [lit "primary"; lit "social"; lit "promotions"; lit "updates"; lit "forums"].

Definition queryFor (labelOrCategory : jsstring) : jsstring :=
  if bool_decide (toLowerCase labelOrCategory ∈ knownCategories)
  then lit "category:" ++ toLowerCase labelOrCategory
  else lit "label:" ++ replaceFirstSpace (toLowerCase labelOrCategory).

(** [messages.slice(i, i + chunkSize)] for [i = 0, chunkSize, ...]. *)
Fixpoint slices {A} (fuel chunkSize : nat) (l : list A) : list (list A) :=
  match fuel, l with
  | S fuel', _ :: _ => take chunkSize l :: slices fuel' chunkSize (drop chunkSize l)
  | _, _ => []
  end.

Definition getCall (m : Message) : list effect :=
  match present (messageId m) with
  | Some id => [MessagesGet id]
  | None => []
  end.

Definition getAnswer (m : Message) : option (option Message) :=
  match present (messageId m) with
  | Some id => messagesGet id
  | None => Some None
  end.

(** [await Promise.all(chunk.map(async (message) => ...))]: every
    request of the chunk is issued, and one rejection rejects the
    whole. *)
Definition fetchChunk (chunk : list Message) : io (list (option Message)) :=
  fun log =>
    match mapM getAnswer chunk with
    | Some emails => (Ok emails, log ++ chunk ≫= getCall)
    | None => (Thrown, log ++ chunk ≫= getCall)
    end.

(** The body of [for (const email of emails)]. *)
Definition pushEmail (labelOrCategory : jsstring) (trainingData : list Document)
    (email : option Message) : list Document :=
  match email with
  | Some email =>
      let subject := emailSubject email in
      let body := emailBody email in
      if nonEmpty body
      then trainingData ++ [ {| content := trainingText subject body;
                                label := labelOrCategory |} ]
      else trainingData
  | None => trainingData
  end.

Fixpoint processChunks (labelOrCategory : jsstring) (chunks : list (list Message))
    (trainingData : list Document) : io (list Document) :=
  match chunks with
  | [] => ret trainingData
  | chunk :: rest =>
      (emails <- fetchChunk chunk ;;
       processChunks labelOrCategory rest
         (foldl (pushEmail labelOrCategory) trainingData emails))%io
  end.

(** The [while (trainingData.length < maxResults)] loop, cut off after
    [fuel] pages. *)
Fixpoint fetchPages (fuel : nat) (query labelOrCategory : jsstring) (maxResults : nat)
    (trainingData : list Document) (nextPageToken : option jsstring)
  : io (list Document) :=
  match fuel with
  | O => outOfFuel
  | S fuel' =>
      if length trainingData <? maxResults
      then
        (let n := min 50 (maxResults - length trainingData) in
         listResponse <- call (MessagesList query n (present nextPageToken))
                              (messagesList query n (present nextPageToken)) ;;
         match messages listResponse with
         | None | Some [] => ret trainingData
         | Some msgs =>
             trainingData' <- processChunks labelOrCategory
                                (slices (length msgs) 10 msgs) trainingData ;;
             match present (Gmail.nextPageToken listResponse) with
             | Some token =>
                 fetchPages fuel' query labelOrCategory maxResults trainingData' (Some token)
             | None => ret trainingData'
             end
         end)%io
      else ret trainingData
  end.

(** [getEmailsForLabel(gmail, labelOrCategory, maxResults)], allowed
    [fuel] pages. *)
Definition getEmailsForLabel (fuel : nat) (labelOrCategory : jsstring) (maxResults : nat)
  : io (list Document) :=
  fetchPages fuel (queryFor labelOrCategory) labelOrCategory maxResults [] None.

(** A document of [getEmailsForLabel]: it carries the requested label
    and the text of a fetched message, made of its subject and of the
    decoded data, not empty, of a text/plain part [q] among its parts. *)
Definition fromMailbox (labelOrCategory : jsstring) (d : Document) : Prop :=
  label d = labelOrCategory
  /\ exists id email ps q data,
       messagesGet id = Some (Some email)
       /\ payload email ≫= payloadParts = Some ps
       /\ within q ps /\ plainText q data
       /\ base64ToUtf8 data <> []
       /\ content d = trainingText (emailSubject email) (base64ToUtf8 data).

Definition getEmailContent (messageId : jsstring) : io (option jsstring) :=
  tryCatch
    (email <- call (MessagesGet messageId) (messagesGet messageId) ;;
     match email with
     | Some data => ret (Some (inferenceText (emailSubject data) (emailBody data)))
     | None => ret None
     end)%io
    (emit (ConsoleError (lit "Error fetching email " ++ messageId ++ lit ":")) ;;;
     ret None)%io.

Definition applyLabelToEmail (messageId labelName : jsstring) : io unit :=
  tryCatch
    (labels <- call LabelsList labelsList ;;
     match labels ≫= List.find (fun l => bool_decide (Gmail.labelName l = Some labelName)) with
     | Some {| labelId := Some (c :: id) |} =>
         call (MessagesModify messageId (c :: id)) (messagesModify messageId (c :: id))
     | _ =>
         emit (ConsoleWarn (lit "Label " ++ [34%N] ++ labelName ++ [34%N]
                            ++ lit " not found. Cannot apply."))
     end)%io
    (emit (ConsoleError (lit "Error applying label to " ++ messageId ++ lit ":"))).

End WithApi.

End Gmail.

(** ** ml/classifier.ts: vocabulary and encoding *)

Module Classifier.
Import Js Obj Io Gmail.

Definition MODEL_DIR : string := "./model".
Definition VOCAB_PATH : string := MODEL_DIR +:+ "/vocabulary.json".
Definition MODEL_PATH : string := "file://" +:+ MODEL_DIR +:+ "/model.json".
Definition LABELS_PATH : string := MODEL_DIR +:+ "/labels.json".

Definition VOCAB_SIZE : nat := 5000.
Definition MAX_SEQUENCE_LENGTH : nat := 100.

(** [type TrainingData = { content: string; label: string }[]] *)
Definition TrainingData := list Document.

(** [type Vocabulary = { [word: string]: number }] *)
Definition Vocabulary := object.

Section WithRuntime.
Context `{Runtime} `{TensorFlow}.

(** The tokens of a text: the two lines that [createVocabulary] and
    [textToSequence] both start with. *)
Definition tokensOf (text : jsstring) : list jsstring :=
  List.filter (fun token => 0 <? length token) (splitWs (stripNonWord (toLowerCase text))).

(** [wordCounts[token] = (wordCounts[token] || 0) + 1] *)
Definition countToken (wordCounts : object) (token : jsstring) : object :=
  set wordCounts token (plusOne (or (get wordCounts token) (VNumber 0))).

Definition countEmail (wordCounts : object) (email : Document) : object :=
  let cleanedText := stripNonWord (toLowerCase (content email)) in
  let tokens := List.filter (fun token => 0 <? length token) (splitWs cleanedText) in
  foldl countToken wordCounts tokens.

(** The loop [for (i = 0; i < topWords.length; i++)
    vocabulary[topWords[i]] = i + 2], entered at index [i]. *)
Fixpoint assignIds (i : nat) (topWords : list jsstring) (vocabulary : Vocabulary) : Vocabulary :=
  match topWords with
  | [] => vocabulary
  | w :: rest => assignIds (S i) rest (set vocabulary w (VNumber (Z.of_nat i + 2)))
  end.

(** [createVocabulary]. The comparator of its sort is consistent as long
    as every count is a number, that is, as long as no token of the
    corpus names a property of [Object.prototype]; on other corpora the
    order of the words, and with it their ids, is the engine's own. *)
Definition createVocabulary (emails : TrainingData) : Vocabulary :=
  let wordCounts := foldl countEmail [] emails in
  let sortedWords :=
    stableSort (fun a b => positive (minus (get wordCounts b) (get wordCounts a)))
               (keys wordCounts) in
  let topWords := take (VOCAB_SIZE - 2) sortedWords in
  let vocabulary := [(lit "<PAD>", VNumber 0); (lit "<UNK>", VNumber 1)] in
  assignIds 0 topWords vocabulary.

(** The local constants of [createVocabulary], by name. *)
Definition wordCountsOf (emails : TrainingData) : object := foldl countEmail [] emails.

Definition sortedWordsOf (emails : TrainingData) : list jsstring :=
  stableSort (fun a b => positive (minus (get (wordCountsOf emails) b)
                                         (get (wordCountsOf emails) a)))
             (keys (wordCountsOf emails)).

Definition topWordsOf (emails : TrainingData) : list jsstring :=
  take (VOCAB_SIZE - 2) (sortedWordsOf emails).

(** A token of some email of the corpus. *)
Definition corpusToken (emails : TrainingData) (token : jsstring) : Prop :=
  exists e, e ∈ emails /\ token ∈ tokensOf (content e).

(** Every token of the corpus, in reading order. *)
Definition corpusTokens (emails : TrainingData) : list jsstring :=
  emails ≫= (fun email => tokensOf (content email)).

(** How often a token occurs. *)
Definition occurrences (token : jsstring) (tokens : list jsstring) : Z :=
  Z.of_nat (length (List.filter (fun t => bool_decide (t = token)) tokens)).

(** The number stored under an own name, 0 without one. *)
Definition countOf (o : object) (k : jsstring) : Z :=
  match getOwn o k with
  | Some (VNumber n) => n
  | _ => 0%Z
  end.

(** Every own value is a number above zero. *)
Definition numeric (o : object) : Prop :=
  forall k v, getOwn o k = Some v -> exists n : Z, v = VNumber n /\ (0 < n)%Z.

(** Invariant of the counting loop: the word counts hold each name once, never "__proto__", and only
    names allowed by [T] when every counted token is. *)
Definition countsInv (T : jsstring -> Prop) (o : object) : Prop :=
  NoDup o.*1 /\ forall k, k ∈ o.*1 -> T k /\ k <> lit "__proto__".

(** [Object.keys(vocabulary).length], the size of a vocabulary. *)
Definition sizeOf (vocabulary : Vocabulary) : nat := length (keys vocabulary).

(** An element of an encoded sequence that is an id of a vocabulary of
    [size] entries. *)
Definition isIdBelow (size : nat) (v : value) : Prop :=
  exists n : Z, v = VNumber n /\ (0 <= n < Z.of_nat size)%Z.

(** The loop [while (padded.length < maxLength) padded.push(paddingValue)]
    with [n] pushes to go. *)
Fixpoint pushPadding (n : nat) (paddingValue : value) (padded : list value) : list value :=
  match n with
  | O => padded
  | S n' => pushPadding n' paddingValue (padded ++ [paddingValue])
  end.

Definition padSequence (sequence : list value) (maxLength : nat) (paddingValue : value)
  : list value :=
  if maxLength <=? length sequence
  then take maxLength sequence
  else pushPadding (maxLength - length sequence) paddingValue sequence.

(** The local constant [sequence] of [textToSequence]. *)
Definition sequenceOf (text : jsstring) (vocabulary : Vocabulary) : list value :=
  (fun token => or (get vocabulary token) (get vocabulary (lit "<UNK>"))) <$> tokensOf text.

Definition textToSequence (text : jsstring) (vocabulary : Vocabulary) : list value :=
  let cleanedText := stripNonWord (toLowerCase text) in
  let tokens := List.filter (fun token => 0 <? length token) (splitWs cleanedText) in
  let sequence := (fun token => or (get vocabulary token) (get vocabulary (lit "<UNK>"))) <$> tokens in
  padSequence sequence MAX_SEQUENCE_LENGTH (VNumber 0).

(** [[...new Set(labels)]]: the distinct labels in first-occurrence
    order. *)
Definition uniqueOf (labels : list jsstring) : list jsstring :=
  foldl (fun seen l => if bool_decide (l ∈ seen) then seen else seen ++ [l]) [] labels.

(** [Object.fromEntries(uniqueLabels.map((label, i) => [label, i]))],
    entered at index [i]; every entry becomes an own data property. *)
Fixpoint fromEntries (i : nat) (uniqueLabels : list jsstring) (labelMap : object) : object :=
  match uniqueLabels with
  | [] => labelMap
  | l :: rest => fromEntries (S i) rest (setOwn labelMap l (VNumber (Z.of_nat i)))
  end.

(** The local constants [sequences] and [numericLabels] of
    [trainModel], by name. *)
Definition sequencesOf (emails : TrainingData) : list (list value) :=
  (fun email => textToSequence (content email) (createVocabulary emails)) <$> emails.

Definition numericLabelsOf (emails : TrainingData) : list value :=
  get (fromEntries 0 (uniqueOf (label <$> emails)) []) <$> (label <$> emails).

(** [trainModel]. The file system calls themselves are taken to
    succeed; what a run that is cut short leaves behind is read off a
    prefix of its log with [replay]. *)
Definition trainModel (emails : TrainingData) : io unit :=
  if length emails =? 0
  then emit (ConsoleError (lit "Cannot train model: No training data provided."))
  else
    (let vocabulary := createVocabulary emails in
     emit (Mkdir MODEL_DIR) ;;;
     emit (WriteFile VOCAB_PATH (VocabularyJson vocabulary)) ;;;
     let sequences := (fun email => textToSequence (content email) vocabulary) <$> emails in
     let labels := label <$> emails in
     let uniqueLabels := uniqueOf labels in
     let labelMap := fromEntries 0 uniqueLabels [] in
     let numericLabels := get labelMap <$> labels in
     model <- call ModelFit (fit sequences numericLabels (length uniqueLabels)) ;;
     emit (ModelSave MODEL_PATH model) ;;;
     emit (WriteFile (MODEL_DIR +:+ "/labels.json") (LabelsJson uniqueLabels)))%io.

(** The fields of [class Classifier]. *)
Record Classifier := {
  model : option LayersModel;
  vocabulary : option Vocabulary;
  labels : option (list jsstring);
}.

(** [new Classifier()] *)
Definition newClassifier : Classifier :=
  {| model := None; vocabulary := None; labels := None |}.

(** How [load] ends: it returns with the fields of the object set, or
    the [catch] block ends the process with [process.exit(1)].
    [JSON.parse] takes any JSON text, so [load] also returns when
    vocabulary.json holds JSON that is no vocabulary; the object then
    has in [this.vocabulary] a value outside the declared type of the
    field, which [LoadedUntyped] records by the file it came from. *)
Inductive loaded :=
  | Loaded (this : Classifier)
  | LoadedUntyped (model : LayersModel) (vocabData : file)
  | Exited.

(** [fs.readFile(path, "utf8")]: the file under the path; it throws
    when the path holds nothing or is a directory. *)
Definition readFile (s : store) (path : string) : option file :=
  match s !! path with
  | Some (ModelFiles _) | None => None
  | Some data => Some data
  end.

(** [tf.loadLayersModel(path)]: the model of the model.json file under
    the path; it throws when the path holds nothing, a directory, as
    [model.save] leaves there, or a JSON file that is no model. *)
Definition loadLayersModel (s : store) (path : string) : option LayersModel :=
  match s !! path with
  | Some (ModelJson m) => Some m
  | _ => None
  end.

(** [Classifier.load] on the model directory [s]. [labelsData] is read
    and then dropped: [this.labels] is never assigned. *)
Definition load (s : store) (this : Classifier) : loaded :=
  match loadLayersModel s MODEL_PATH with
  | Some m =>
      match readFile s VOCAB_PATH with
      | Some vocabData =>
          match readFile s LABELS_PATH with
          | Some labelsData =>
              match vocabData with
              | VocabularyJson vocabulary =>
                  Loaded {| model := Some m;
                            vocabulary := Some vocabulary;
                            labels := labels this |}
              | _ => LoadedUntyped m vocabData
              end
          | None => Exited
          end
      | None => Exited
      end
  | None => Exited
  end.

(** What [predict] returns: a label, [null], or the [undefined] of an
    index outside [this.labels]. *)
Inductive predicted :=
  | PLabel (l : jsstring)
  | PNull
  | PUndefined.

Definition predict (this : Classifier) (emailContent : jsstring) : io predicted :=
  match model this, vocabulary this, labels this with
  | Some model, Some vocabulary, Some labels =>
      (let sequence := textToSequence emailContent vocabulary in
       predictedIndex <- call (ModelPredict sequence) (predictIndex model sequence) ;;
       ret (match labels !! predictedIndex with
            | Some l => PLabel l
            | None => PUndefined
            end))%io
  | _, _, _ =>
      (emit (ConsoleError (lit "Classifier not loaded. Call load() first.")) ;;;
       ret PNull)%io
  end.

End WithRuntime.

End Classifier.

(** ** server.ts *)

Module Server.
Import Js Obj Io Gmail Classifier.

(** The decoded [message.data] of a Pub/Sub push. *)
Record PushEvent := { emailAddress : jsstring; historyId : N }.

(** [c.json(body, status)] *)
Record response := {
  status : nat;
  success : bool;
  message : option string;
  predictedLabel : option jsstring;
  error : option string;
}.

Definition json (success : bool) (message : option string) (predictedLabel : option jsstring)
  : response :=
  {| status := 200; success := success; message := message;
     predictedLabel := predictedLabel; error := None |}.

Section WithApi.
Context `{Runtime} `{TensorFlow} `{Api}.

(** [historyResponse.data.history?.[0]?.messagesAdded] *)
Definition firstAdded (historyResponse : HistoryResponse) : option (list MessageAdded) :=
  match history historyResponse with
  | Some (h :: _) => messagesAdded h
  | _ => None
  end.

(** The handler of [app.post("/webhook")] with the loaded [classifier].
    [request] is the decoded push event, [None] when the body or its
    [message.data] does not parse. *)
Definition webhook (classifier : Classifier) (request : option PushEvent) : io response :=
  tryCatch
    (messageData <- match request with Some e => ret e | None => throw end ;;
     historyResponse <- call (HistoryList (historyId messageData))
                             (historyList (historyId messageData)) ;;
     match firstAdded historyResponse with
     | None | Some [] => ret (json true (Some "No new messages in history.") None)
     | Some (first :: _) =>
         match present (Gmail.message first ≫= Gmail.messageId) with
         | None => ret (json true (Some "Message ID missing.") None)
         | Some messageId =>
             content <- getEmailContent messageId ;;
             match present content with
             | None => ret (json false (Some "Content fetch failed.") None)
             | Some content =>
                 predictedLabel <- predict classifier content ;;
                 match predictedLabel with
                 | PLabel (c :: l) =>
                     applyLabelToEmail messageId (c :: l) ;;;
                     ret (json true None (Some (c :: l)))
                 | _ => ret (json false (Some "Prediction failed.") None)
                 end
             end
         end
     end)%io
    (emit (ConsoleError (lit "Error processing webhook:")) ;;;
     ret {| status := 500; success := false; message := None;
            predictedLabel := None; error := Some "Internal Server Error" |})%io.

End WithApi.

End Server.


(** ** Concrete collaborators for the worked examples *)

Module Examples.
Import Js Obj Io Gmail Classifier Server.

(** A runtime for ASCII text. The examples hold no base64 payload whose
    decoding matters, so payloads are taken as already decoded. *)
Definition asciiRuntime : Runtime :=
  {| toLowerCase := fmap asciiLower; base64ToUtf8 := fun data => data |}.


(** A TensorFlow whose model is its number of classes and which always
    answers with class 0. *)
Definition constantTf : TensorFlow :=
  {| LayersModel := nat;
     fit := fun _ _ numClasses => Some numClasses;
     predictIndex := fun _ _ => Some 0 |}.

Definition doc (text l : string) : Document :=
  {| content := lit text; label := lit l |}.

(** A message with a subject and one text/plain part. *)
Definition mail (id subject body : string) : Message :=
  {| messageId := Some (lit id);
     payload := Some {| headers := Some [ {| headerName := Some (lit "Subject");
                                             headerValue := Some (lit subject) |} ];
                        payloadParts := Some [ mkPart (Some (lit "text/plain"))
                                                      (Some (lit body)) None ] |} |}.

(** A mailbox that holds the one message "m1", listed under every
    query on a single page and added by every history record, and the
    one label "Promotions". *)
Definition oneMailApi : Api :=
  {| messagesList := fun _ maxResults _ =>
       Some {| messages := Some (take maxResults [mail "m1" "Hi" "there friend"]);
               nextPageToken := None |};
     messagesGet := fun id =>
       if decide (id = lit "m1") then Some (Some (mail "m1" "Hi" "there friend"))
       else None;
     historyList := fun _ =>
       Some {| history := Some [ {| messagesAdded :=
                 Some [ {| Gmail.message := Some (mail "m1" "Hi" "there friend") |} ] |} ] |};
     labelsList := Some (Some [ {| labelId := Some (lit "Label_1");
                                   labelName := Some (lit "Promotions") |} ]);
     messagesModify := fun _ _ => Some tt |}.

(** A mailbox in which the history names message "m0", whose subject is
    empty and which has no plain-text part. *)
Definition blankMailApi : Api :=
  {| messagesList := fun _ _ _ => Some {| messages := None; nextPageToken := None |};
     messagesGet := fun id =>
       Some (Some {| messageId := Some id;
                     payload := Some {| headers := Some []; payloadParts := None |} |});
     historyList := fun _ =>
       Some {| history := Some [ {| messagesAdded :=
                 Some [ {| Gmail.message :=
                             Some {| messageId := Some (lit "m0"); payload := None |} |} ] |} ] |};
     labelsList := Some (Some []);
     messagesModify := fun _ _ => Some tt |}.

(** A message whose only part is HTML. *)
Definition htmlMail (id subject : string) : Message :=
  {| messageId := Some (lit id);
     payload := Some {| headers := Some [ {| headerName := Some (lit "Subject");
                                             headerValue := Some (lit subject) |} ];
                        payloadParts := Some [ mkPart (Some (lit "text/html"))
                                                      (Some (lit "<p>hi</p>")) None ] |} |}.

(** A mailbox of three messages listed on two pages; the second message
    has no plain-text part. *)
Definition pagedApi : Api :=
  {| messagesList := fun _ maxResults pageToken =>
       match pageToken with
       | None =>
           Some {| messages := Some (take maxResults [mail "m1" "Sale" "Buy  now";
                                                      htmlMail "m2" "Newsletter"]);
                   nextPageToken := Some (lit "p2") |}
       | Some _ =>
           Some {| messages := Some (take maxResults [mail "m3" "Lunch" "at noon?"]);
                   nextPageToken := None |}
       end;
     messagesGet := fun id =>
       if decide (id = lit "m1") then Some (Some (mail "m1" "Sale" "Buy  now"))
       else if decide (id = lit "m2") then Some (Some (htmlMail "m2" "Newsletter"))
       else if decide (id = lit "m3") then Some (Some (mail "m3" "Lunch" "at noon?"))
       else None;
     historyList := fun _ => Some {| history := None |};
     labelsList := Some (Some []);
     messagesModify := fun _ _ => Some tt |}.

(** How many pages follow a page token of [pagedApi]. *)
Definition pagedRank (pageToken : option jsstring) : nat :=
  match pageToken with None => 1 | Some _ => 0 end.

(** The model directory that a training run on two documents leaves,
    with the directory that [model.save] made replaced by hand by a
    model.json file that [tf.loadLayersModel] reads. *)
Definition arrangedDir : gmap string (@file constantTf) :=
  <[MODEL_PATH := @ModelJson constantTf 2]>
    (replay (@trainModel asciiRuntime constantTf [doc "hello world" "A"; doc "bye" "B"] []).2
            ∅).

(** The mailbox of [oneMailApi] with every modification rejected. *)
Definition rejectingApi : Api :=
  {| messagesList := @messagesList oneMailApi;
     messagesGet := @messagesGet oneMailApi;
     historyList := @historyList oneMailApi;
     labelsList := @labelsList oneMailApi;
     messagesModify := fun _ _ => None |}.

End Examples.

(** ** config.ts and scripts/train.ts *)

Module Train.
Import Js Obj Io Gmail Classifier.

Definition LABELS_TO_TRAIN : list jsstring :=
  [lit "Primary"; lit "Promotions"; lit "Social"].

Definition emailsPerLabel : nat := 500.

Section WithApi.
Context `{Runtime} `{TensorFlow} `{Api}.

(** The loop [for (const labelName of LABELS_TO_TRAIN)] of [main], over
    the labels still to fetch; every fetch is allowed [fuel] pages. *)
Fixpoint fetchLabels (fuel : nat) (labels : list jsstring) (allEmails : list Document)
  : io (list Document) :=
  match labels with
  | [] => ret allEmails
  | labelName :: rest =>
      (emails <- getEmailsForLabel fuel labelName emailsPerLabel ;;
       fetchLabels fuel rest (allEmails ++ emails))%io
  end.

(** [main] from its Step 2 on, that is, once [getAuthenticatedClient]
    and [gmail.users.watch] have returned (when one of them rejects,
    [main] rejects before any of this runs). *)
Definition main (fuel : nat) : io unit :=
  (allEmails <- fetchLabels fuel LABELS_TO_TRAIN [] ;;
   if length allEmails =? 0
   then
     emit (ConsoleError
             ([10%N] ++ lit "Error: No training data found. Make sure the labels in `config.ts` exist and contain emails.")) ;;;
     emit (ConsoleError (lit "Exiting training process."))
   else trainModel allEmails)%io.

End WithApi.

End Train.

(** ** Reading a text and a log of calls *)

Module Logs.
Import Js Obj Io Gmail Classifier Server.

(** No two neighbouring code units of a string are both white space. *)
Definition noDoubleWs (l : jsstring) : Prop :=
  forall i c1 c2, l !! i = Some c1 -> l !! S i = Some c2 ->
                  isWhiteSpace c1 = false \/ isWhiteSpace c2 = false.

Section WithTensorFlow.
Context `{TensorFlow}.

(** A call that changes the model directory. *)
Definition isFileCall (e : effect) : bool :=
  match e with
  | Mkdir _ | WriteFile _ _ | ModelSave _ _ => true
  | _ => false
  end.

(** The paths of the bundle are free for a run of [trainModel]: no
    file lies where [model.save] makes its directory, and no directory
    where a file is written, so that the file system calls of the run
    succeed. *)
Definition writable (s : store) : Prop :=
  readFile s MODEL_PATH = None
  /\ (forall m, s !! VOCAB_PATH <> Some (ModelFiles m))
  /\ (forall m, s !! LABELS_PATH <> Some (ModelFiles m)).

(** A call that changes the mailbox. *)
Definition isModify (e : effect) : bool :=
  match e with
  | MessagesModify _ _ => true
  | _ => false
  end.

(** A forward pass of the model. *)
Definition isPredict (e : effect) : bool :=
  match e with
  | ModelPredict _ => true
  | _ => false
  end.

(** A line on the console. *)
Definition isConsole (e : effect) : bool :=
  match e with
  | ConsoleError _ | ConsoleWarn _ => true
  | _ => false
  end.

(** A [messages.list] request for between 1 and 50 messages, and at most
    [maxResults], under the query [q]. *)
Definition isListRequest (q : jsstring) (maxResults : nat) (e : effect) : Prop :=
  exists n pageToken,
    e = MessagesList q n pageToken /\ 1 <= n <= 50 /\ n <= maxResults.

(** A [messages.get] request. *)
Definition isGetRequest (e : effect) : Prop := exists id, e = MessagesGet id.

(** A computation keeps the log it is given and adds only calls that
    satisfy [P]. *)
Definition adds {A} (P : effect -> Prop) (m : io A) : Prop :=
  forall log, exists delta, (m log).2 = log ++ delta /\ Forall P delta.

(** How a run of the webhook handler ends, for a [classifier] and from
    a [log]: with a response, of status 200 or a failure of status 500,
    after at most one forward pass and no more mailbox changes than
    forward passes; a response that names a label names one of
    [classifier.labels] and follows a listing of the labels; and a
    classifier without labels makes no forward pass and no change. *)
Definition handled (classifier : Classifier) (log : list effect)
    (run : result response * list effect) : Prop :=
  exists r calls,
    run = (Ok r, log ++ calls)
    /\ (status r = 200 \/ (status r = 500 /\ success r = false /\ predictedLabel r = None))
    /\ length (List.filter isPredict calls) <= 1
    /\ length (List.filter isModify calls) <= length (List.filter isPredict calls)
    /\ (forall l, predictedLabel r = Some l ->
          success r = true /\ status r = 200
          /\ (exists ls, labels classifier = Some ls /\ l ∈ ls)
          /\ LabelsList ∈ calls)
    /\ (labels classifier = None ->
        List.filter isPredict calls = [] /\ List.filter isModify calls = []
        /\ predictedLabel r = None).

End WithTensorFlow.

End Logs.

(** * Properties *)

Import Js Obj Io Gmail Classifier Server Train Logs.

(** ** The monad *)

Section IoFacts.
Context `{TensorFlow}.

Lemma bind_Ok {A B} (m : io A) (k : A -> io B) log b log' :
  bind m k log = (Ok b, log') ->
  exists a log1, m log = (Ok a, log1) /\ k a log1 = (Ok b, log').
Proof.
  unfold bind. destruct (m log) as [[a| |] log1]; intros Hk; try discriminate.
  by exists a, log1.
Qed.

Lemma bind_not_OutOfFuel {A B} (m : io A) (k : A -> io B) log :
  (m log).1 <> OutOfFuel ->
  (forall a log1, m log = (Ok a, log1) -> (k a log1).1 <> OutOfFuel) ->
  (bind m k log).1 <> OutOfFuel.
Proof.
  unfold bind. destruct (m log) as [[a| |] log1]; simpl; intros Hm Hk; auto.
Qed.

Lemma replay_app (l1 l2 : list effect) (s : store) :
  replay (l1 ++ l2) s = replay l2 (replay l1 s).
Proof. unfold replay. apply foldl_app. Qed.

End IoFacts.

(** ** Tokens *)

Section TokenFacts.
Context `{Runtime}.

Lemma wordChar_not_whiteSpace (c : N) : isWordChar c = true -> isWhiteSpace c = false.
Proof.
  unfold isWordChar, isWhiteSpace. intros Hw.
  apply not_true_iff_false. intros Hs.
  rewrite !orb_true_iff, !andb_true_iff, !N.leb_le, !N.eqb_eq in Hw.
  rewrite !orb_true_iff, !andb_true_iff, !N.leb_le, !N.eqb_eq in Hs.
  lia.
Qed.

Lemma stripNonWord_chars (s : jsstring) :
  Forall (fun c => isWordChar c = true \/ isWhiteSpace c = true) (stripNonWord s).
Proof.
  unfold stripNonWord. apply Forall_forall. intros c Hc.
  apply list_elem_of_filter in Hc as [Hc _].
  by apply orb_true_iff.
Qed.

Lemma splitWsFrom_wordChars (s cur : jsstring) (inRun : bool) :
  Forall (fun c => isWordChar c = true \/ isWhiteSpace c = true) s ->
  Forall (fun c => isWordChar c = true) cur ->
  Forall (Forall (fun c => isWordChar c = true)) (splitWsFrom cur inRun s).
Proof.
  revert cur inRun. induction s as [|c s IH]; intros cur inRun Hs Hcur; simpl.
  - by constructor.
  - inversion Hs as [|? ? Hc Hs']; subst.
    destruct (isWhiteSpace c) eqn:Hws.
    + destruct inRun.
      * apply IH; [done | constructor].
      * constructor; [done |]. apply IH; [done | constructor].
    + apply IH; [done |]. apply Forall_app. split; [done |].
      constructor; [| constructor]. destruct Hc as [Hc | Hc]; [done | congruence].
Qed.

(** A token is a non-empty string of word characters. *)
Lemma tokensOf_wordChars (text token : jsstring) :
  token ∈ tokensOf text ->
  token <> [] /\ Forall (fun c => isWordChar c = true) token.
Proof.
  unfold tokensOf. intros Hin. apply list_elem_of_In, filter_In in Hin as [Hin Hlen].
  split.
  - intros ->. discriminate.
  - apply list_elem_of_In in Hin.
    pose proof (splitWsFrom_wordChars (stripNonWord (toLowerCase text)) [] false
                  (stripNonWord_chars _) (Forall_nil_2 _)) as Hall.
    rewrite Forall_forall in Hall. by apply Hall.
Qed.

Lemma token_not_reserved (text token : jsstring) :
  token ∈ tokensOf text -> token <> lit "<PAD>" /\ token <> lit "<UNK>".
Proof.
  intros Hin. apply tokensOf_wordChars in Hin as [_ Hall].
  split; intros ->; inversion Hall; discriminate.
Qed.

End TokenFacts.

(** ** Plain objects *)

Section ObjectFacts.

Lemma getOwn_None (o : object) (k : jsstring) : getOwn o k = None <-> k ∉ o.*1.
Proof.
  induction o as [|[k' v] o IH]; simpl.
  - split; [intros _; apply not_elem_of_nil | done].
  - destruct (decide (k' = k)) as [-> | Hne].
    + split; [done | intros Hn; exfalso; apply Hn; left].
    + rewrite IH, not_elem_of_cons. split; [intros Hk; split; [by intros -> | done] | by intros [_ Hk]].
Qed.

Lemma getOwn_app (o1 o2 : object) (k : jsstring) :
  getOwn (o1 ++ o2) k = match getOwn o1 k with Some v => Some v | None => getOwn o2 k end.
Proof.
  induction o1 as [|[k' v] o1 IH]; simpl; [done |].
  by destruct (decide (k' = k)).
Qed.

Lemma setOwn_fresh (o : object) (k : jsstring) (v : value) :
  k ∉ o.*1 -> setOwn o k v = o ++ [(k, v)].
Proof.
  induction o as [|[k' v'] o IH]; simpl; intros Hk; [done |].
  apply not_elem_of_cons in Hk as [Hne Hk].
  destruct (decide (k' = k)); [congruence |]. by rewrite IH.
Qed.

Lemma setOwn_keys_same (o : object) (k : jsstring) (v : value) :
  k ∈ o.*1 -> (setOwn o k v).*1 = o.*1.
Proof.
  induction o as [|[k' v'] o IH]; simpl; intros Hk.
  - by apply elem_of_nil in Hk.
  - destruct (decide (k' = k)) as [-> | Hne]; simpl; [done |].
    f_equal. apply IH. apply elem_of_cons in Hk as [Hk | Hk]; [congruence | done].
Qed.

Lemma setOwn_keys (o : object) (k : jsstring) (v : value) :
  (setOwn o k v).*1 = if decide (k ∈ o.*1) then o.*1 else o.*1 ++ [k].
Proof.
  destruct (decide (k ∈ o.*1)) as [Hin | Hnin].
  - by apply setOwn_keys_same.
  - rewrite setOwn_fresh by done. by rewrite fmap_app.
Qed.

Lemma setOwn_NoDup (o : object) (k : jsstring) (v : value) :
  NoDup o.*1 -> NoDup (setOwn o k v).*1.
Proof.
  intros Hnd. rewrite setOwn_keys. destruct (decide (k ∈ o.*1)); [done |].
  apply NoDup_app. split_and!; [done | | apply NoDup_singleton].
  intros x Hx Hx'. apply list_elem_of_singleton in Hx'. by subst.
Qed.

Lemma getOwn_setOwn (o : object) (k k' : jsstring) (v : value) :
  getOwn (setOwn o k v) k' = if decide (k = k') then Some v else getOwn o k'.
Proof.
  induction o as [|[k0 v0] o IH]; simpl.
  - by destruct (decide (k = k')).
  - destruct (decide (k0 = k)) as [-> | Hne]; simpl.
    + by destruct (decide (k = k')).
    + destruct (decide (k0 = k')) as [-> | Hne'].
      * destruct (decide (k = k')); [congruence | done].
      * done.
Qed.

Lemma insertSorted_Permutation {A} (after : A -> A -> bool) (x : A) (l : list A) :
  insertSorted after x l ≡ₚ x :: l.
Proof.
  induction l as [|y l IH]; simpl; [done |].
  destruct (after x y); [| done].
  rewrite IH. apply Permutation_swap.
Qed.

Lemma stableSort_Permutation {A} (after : A -> A -> bool) (l : list A) :
  stableSort after l ≡ₚ l.
Proof.
  induction l as [|x l IH]; simpl; [done |].
  by rewrite insertSorted_Permutation, IH.
Qed.

Lemma filter_negb_Permutation {A} (f : A -> bool) (l : list A) :
  List.filter f l ++ List.filter (fun x => negb (f x)) l ≡ₚ l.
Proof.
  induction l as [|x l IH]; simpl; [done |].
  destruct (f x); simpl.
  - by rewrite IH.
  - rewrite <- Permutation_middle. by rewrite IH.
Qed.

(** [Object.keys] lists every own property name once. *)
Lemma keys_Permutation (o : object) : keys o ≡ₚ o.*1.
Proof.
  unfold keys. rewrite stableSort_Permutation. apply filter_negb_Permutation.
Qed.

Lemma keys_length (o : object) : length (keys o) = length o.
Proof. by rewrite keys_Permutation, length_fmap. Qed.

End ObjectFacts.

(** ** [createVocabulary] *)

Section VocabularyFacts.
Context `{Runtime}.

Lemma countToken_inv (T : jsstring -> Prop) (o : object) (token : jsstring) :
  T token -> countsInv T o -> countsInv T (countToken o token).
Proof.
  intros HT [Hnd Hk]. unfold countToken, set.
  destruct (decide (token = lit "__proto__")) as [Heq | Hne].
  { destruct (getOwn o token) eqn:Hown; [| done].
    assert (Hin : token ∈ o.*1).
    { destruct (decide (token ∈ o.*1)) as [? | Hnot]; [done |].
      apply getOwn_None in Hnot. congruence. }
    by destruct (Hk token Hin). }
  split; [by apply setOwn_NoDup |].
  intros k. rewrite setOwn_keys. destruct (decide (token ∈ o.*1)); [by apply Hk |].
  rewrite elem_of_app, list_elem_of_singleton. intros [Hin | ->]; [by apply Hk | done].
Qed.

Lemma countTokens_inv (T : jsstring -> Prop) (tokens : list jsstring) (o : object) :
  Forall T tokens -> countsInv T o -> countsInv T (foldl countToken o tokens).
Proof.
  revert o. induction tokens as [|t tokens IH]; intros o Hall Hinv; simpl; [done |].
  inversion Hall; subst. apply IH; [done |]. by apply countToken_inv.
Qed.

Lemma countEmail_unfold (o : object) (email : Document) :
  countEmail o email = foldl countToken o (tokensOf (content email)).
Proof. reflexivity. Qed.

Lemma countEmails_inv (T : jsstring -> Prop) (emails : TrainingData) (o : object) :
  (forall e token, e ∈ emails -> token ∈ tokensOf (content e) -> T token) ->
  countsInv T o -> countsInv T (foldl countEmail o emails).
Proof.
  revert o. induction emails as [|e emails IH]; intros o HT Hinv; simpl; [done |].
  apply IH.
  - intros e' token He'. apply HT. by right.
  - rewrite countEmail_unfold. apply countTokens_inv; [| done].
    apply Forall_forall. intros token Htok. apply (HT e); [left | done].
Qed.

Lemma wordCountsOf_inv (emails : TrainingData) :
  countsInv (corpusToken emails) (wordCountsOf emails).
Proof.
  apply countEmails_inv.
  - intros e token He Htok. by exists e.
  - split; [constructor | intros k Hk; by apply elem_of_nil in Hk].
Qed.

Lemma sortedWordsOf_Permutation (emails : TrainingData) :
  sortedWordsOf emails ≡ₚ (wordCountsOf emails).*1.
Proof. unfold sortedWordsOf. by rewrite stableSort_Permutation, keys_Permutation. Qed.

Lemma topWordsOf_sublist (emails : TrainingData) :
  topWordsOf emails `sublist_of` sortedWordsOf emails.
Proof. apply sublist_take. Qed.

Lemma topWordsOf_NoDup (emails : TrainingData) : NoDup (topWordsOf emails).
Proof.
  eapply sublist_NoDup; [| apply topWordsOf_sublist].
  rewrite sortedWordsOf_Permutation. apply wordCountsOf_inv.
Qed.

Lemma topWordsOf_token (emails : TrainingData) (w : jsstring) :
  w ∈ topWordsOf emails -> corpusToken emails w /\ w <> lit "__proto__".
Proof.
  intros Hw. apply (wordCountsOf_inv emails).
  rewrite <- sortedWordsOf_Permutation.
  eapply elem_of_sublist; [done | apply topWordsOf_sublist].
Qed.

Lemma topWordsOf_length (emails : TrainingData) :
  length (topWordsOf emails) <= VOCAB_SIZE - 2.
Proof. unfold topWordsOf. rewrite length_take. lia. Qed.

Lemma assignIds_fresh (ws : list jsstring) (i : nat) (V : Vocabulary) :
  NoDup ws ->
  (forall w, w ∈ ws -> (w ∉ V.*1) /\ w <> lit "__proto__") ->
  assignIds i ws V
  = V ++ imap (fun j w => (w, VNumber (Z.of_nat (i + j) + 2))) ws.
Proof.
  revert i V. induction ws as [|w ws IH]; intros i V Hnd Hfresh; simpl.
  - by rewrite app_nil_r.
  - apply NoDup_cons in Hnd as [Hw Hnd].
    destruct (Hfresh w) as [HwV Hwp]; [left |].
    unfold set. destruct (decide (w = lit "__proto__")); [done |].
    rewrite setOwn_fresh by done. rewrite IH; [| done |].
    + rewrite <- app_assoc. simpl. rewrite Nat.add_0_r. do 2 f_equal.
      apply imap_ext. intros j x _. simpl. do 3 f_equal. lia.
    + intros w' Hw'. destruct (Hfresh w') as [Hw'V Hw'p]; [by right |].
      split; [| done]. rewrite fmap_app, not_elem_of_app. split; [done |].
      simpl. rewrite list_elem_of_singleton. intros ->. done.
Qed.

(** The vocabulary is the two reserved entries followed by the top words
    numbered from 2 in their sorted order. *)
Lemma createVocabulary_shape (emails : TrainingData) :
  createVocabulary emails
  = [(lit "<PAD>", VNumber 0); (lit "<UNK>", VNumber 1)]
    ++ imap (fun j w => (w, VNumber (Z.of_nat j + 2))) (topWordsOf emails).
Proof.
  change (createVocabulary emails)
    with (assignIds 0 (topWordsOf emails)
            [(lit "<PAD>", VNumber 0); (lit "<UNK>", VNumber 1)]).
  rewrite assignIds_fresh.
  - done.
  - apply topWordsOf_NoDup.
  - intros w Hw. apply topWordsOf_token in Hw as [[e [He Htok]] Hp].
    split; [| done]. apply token_not_reserved in Htok as [Hpad Hunk].
    simpl. rewrite !not_elem_of_cons. split_and!; [done | done | apply not_elem_of_nil].
Qed.

Lemma createVocabulary_size (emails : TrainingData) :
  sizeOf (createVocabulary emails) = 2 + length (topWordsOf emails).
Proof.
  unfold sizeOf. rewrite keys_length, createVocabulary_shape.
  rewrite length_app, length_imap. reflexivity.
Qed.

Lemma createVocabulary_size_le (emails : TrainingData) :
  sizeOf (createVocabulary emails) <= VOCAB_SIZE.
Proof.
  rewrite createVocabulary_size. pose proof (topWordsOf_length emails).
  unfold VOCAB_SIZE in *. lia.
Qed.

Lemma createVocabulary_reserved (emails : TrainingData) :
  get (createVocabulary emails) (lit "<PAD>") = VNumber 0
  /\ get (createVocabulary emails) (lit "<UNK>") = VNumber 1.
Proof. rewrite createVocabulary_shape. split; reflexivity. Qed.

Lemma getOwn_imap (ws : list jsstring) (i : nat) (k : jsstring) :
  ((k ∉ ws) /\ getOwn (imap (fun j w => (w, VNumber (Z.of_nat (i + j) + 2))) ws) k = None)
  \/ exists j, ws !! j = Some k
       /\ getOwn (imap (fun j w => (w, VNumber (Z.of_nat (i + j) + 2))) ws) k
          = Some (VNumber (Z.of_nat (i + j) + 2)).
Proof.
  revert i. induction ws as [|w ws IH]; intros i; simpl.
  - left. split; [apply not_elem_of_nil | done].
  - destruct (decide (w = k)) as [-> | Hne].
    + right. exists 0. done.
    + destruct (IH (S i)) as [[Hnot Hnone] | [j [Hj Hget]]].
      * left. split; [rewrite not_elem_of_cons; by split |].
        rewrite <- Hnone. f_equal. apply imap_ext. intros j x _. simpl.
        do 3 f_equal. lia.
      * right. exists (S j). split; [done |].
        replace (i + S j) with (S i + j) by lia. rewrite <- Hget. f_equal.
        apply imap_ext. intros j' x _. simpl. do 3 f_equal. lia.
Qed.

(** The own entry of a token in a built vocabulary. *)
Lemma createVocabulary_getOwn (emails : TrainingData) (text token : jsstring) :
  token ∈ tokensOf text ->
  ((token ∉ topWordsOf emails) /\ getOwn (createVocabulary emails) token = None)
  \/ exists j, topWordsOf emails !! j = Some token
       /\ getOwn (createVocabulary emails) token = Some (VNumber (Z.of_nat j + 2)).
Proof.
  intros Htok. apply token_not_reserved in Htok as [Hpad Hunk].
  rewrite createVocabulary_shape. simpl.
  destruct (decide (lit "<PAD>" = token)); [congruence |].
  destruct (decide (lit "<UNK>" = token)); [congruence |].
  apply (getOwn_imap (topWordsOf emails) 0 token).
Qed.

Lemma getInherited_cases (k : jsstring) :
  getInherited k = VUndefined \/ exists b, getInherited k = VBuiltin b.
Proof.
  unfold getInherited.
  destruct (decide (k = lit "constructor")); [right; eauto |].
  destruct (decide (k = lit "__proto__")); [right; eauto |].
  destruct (List.find _ _); [right; eauto | by left].
Qed.

(** What [vocabulary[token] || vocabulary["<UNK>"]] is for a token and a
    built vocabulary: the id of a top word, the OOV id, or an object
    inherited from [Object.prototype]. *)
Lemma encode_token (emails : TrainingData) (text token : jsstring) :
  token ∈ tokensOf text ->
  let V := createVocabulary emails in
  let v := or (get V token) (get V (lit "<UNK>")) in
  (exists j, topWordsOf emails !! j = Some token /\ v = VNumber (Z.of_nat j + 2))
  \/ ((token ∉ topWordsOf emails) /\ getInherited token = VUndefined /\ v = VNumber 1)
  \/ ((token ∉ topWordsOf emails) /\ exists b, getInherited token = VBuiltin b /\ v = VBuiltin b).
Proof.
  intros Htok V v. subst v.
  destruct (createVocabulary_reserved emails) as [_ Hunk]. fold V in Hunk. rewrite Hunk.
  destruct (createVocabulary_getOwn emails text token Htok) as [[Hnot Hnone] | [j [Hj Hget]]];
    (fold V in Hnone || fold V in Hget); unfold get.
  - rewrite Hnone. destruct (getInherited_cases token) as [Hu | [b Hb]].
    + right; left. rewrite Hu. split_and!; [done | done | reflexivity].
    + right; right. split; [done |]. exists b. rewrite Hb. split; reflexivity.
  - left. exists j. split; [done |]. rewrite Hget. unfold or. simpl.
    destruct (Z.eqb_spec (Z.of_nat j + 2) 0); [lia | done].
Qed.

End VocabularyFacts.

(** ** [padSequence] and [textToSequence] *)

Section EncoderFacts.
Context `{Runtime}.

Lemma pushPadding_spec (n : nat) (v : value) (l : list value) :
  pushPadding n v l = l ++ replicate n v.
Proof.
  revert l. induction n as [|n IH]; intros l; simpl.
  - by rewrite app_nil_r.
  - rewrite IH, <- app_assoc. reflexivity.
Qed.

Lemma padSequence_long (s : list value) (n : nat) (v : value) :
  n <= length s -> padSequence s n v = take n s.
Proof. intros Hn. unfold padSequence. by destruct (Nat.leb_spec n (length s)); [| lia]. Qed.

Lemma padSequence_short (s : list value) (n : nat) (v : value) :
  length s < n -> padSequence s n v = s ++ replicate (n - length s) v.
Proof.
  intros Hn. unfold padSequence. destruct (Nat.leb_spec n (length s)); [lia |].
  apply pushPadding_spec.
Qed.

Lemma padSequence_length (s : list value) (n : nat) (v : value) :
  length (padSequence s n v) = n.
Proof.
  destruct (Nat.le_gt_cases n (length s)).
  - rewrite padSequence_long by done. rewrite length_take. lia.
  - rewrite padSequence_short by done. rewrite length_app, length_replicate. lia.
Qed.

Lemma padSequence_Forall (P : value -> Prop) (s : list value) (n : nat) (v : value) :
  Forall P s -> P v -> Forall P (padSequence s n v).
Proof.
  intros Hs Hv. destruct (Nat.le_gt_cases n (length s)).
  - rewrite padSequence_long by done. by apply Forall_take.
  - rewrite padSequence_short by done. apply Forall_app. split; [done |].
    by apply Forall_replicate.
Qed.

Lemma textToSequence_unfold (text : jsstring) (V : Vocabulary) :
  textToSequence text V = padSequence (sequenceOf text V) MAX_SEQUENCE_LENGTH (VNumber 0).
Proof. reflexivity. Qed.

(** Every encoded sequence has [MAX_SEQUENCE_LENGTH] elements. *)
Lemma textToSequence_length (text : jsstring) (V : Vocabulary) :
  length (textToSequence text V) = MAX_SEQUENCE_LENGTH.
Proof. rewrite textToSequence_unfold. apply padSequence_length. Qed.

(** A long token sequence keeps its first [MAX_SEQUENCE_LENGTH] ids. *)
Lemma textToSequence_truncates (text : jsstring) (V : Vocabulary) :
  MAX_SEQUENCE_LENGTH <= length (tokensOf text) ->
  textToSequence text V = take MAX_SEQUENCE_LENGTH (sequenceOf text V).
Proof.
  intros Hlen. rewrite textToSequence_unfold. apply padSequence_long.
  unfold sequenceOf. by rewrite length_fmap.
Qed.

(** A short one is followed by the padding id up to that length. *)
Lemma textToSequence_pads (text : jsstring) (V : Vocabulary) :
  length (tokensOf text) < MAX_SEQUENCE_LENGTH ->
  textToSequence text V
  = sequenceOf text V
    ++ replicate (MAX_SEQUENCE_LENGTH - length (tokensOf text)) (VNumber 0).
Proof.
  intros Hlen. rewrite textToSequence_unfold.
  rewrite padSequence_short; unfold sequenceOf; rewrite length_fmap; done.
Qed.

(** X3. A text whose tokens are own entries of the vocabulary or are
    not names of [Object.prototype] is encoded by ids below the
    vocabulary size. *)
Lemma textToSequence_ids (emails : TrainingData) (text : jsstring) :
  Forall (fun token => token ∈ topWordsOf emails \/ getInherited token = VUndefined)
         (tokensOf text) ->
  Forall (isIdBelow (sizeOf (createVocabulary emails)))
         (textToSequence text (createVocabulary emails)).
Proof.
  intros Hplain. rewrite textToSequence_unfold, createVocabulary_size.
  apply padSequence_Forall.
  - unfold sequenceOf. apply Forall_fmap, Forall_forall. intros token Htok. simpl.
    rewrite Forall_forall in Hplain. specialize (Hplain token Htok).
    destruct (encode_token emails text token Htok) as [[j [Hj ->]] | [[Hn [Hu ->]] | [Hn [b [Hb _]]]]].
    + exists (Z.of_nat j + 2)%Z. split; [done |].
      apply lookup_lt_Some in Hj. lia.
    + exists 1%Z. split; [done | lia].
    + destruct Hplain as [Hin | Hu]; [done | congruence].
  - exists 0%Z. split; [done | lia].
Qed.

(** X4. No token is encoded by the padding id 0, whatever the text and
    the corpus of the vocabulary. *)
Lemma sequenceOf_not_padding (emails : TrainingData) (text : jsstring) :
  Forall (fun v => v <> VNumber 0) (sequenceOf text (createVocabulary emails)).
Proof.
  unfold sequenceOf. apply Forall_fmap, Forall_forall. intros token Htok. simpl.
  destruct (encode_token emails text token Htok) as [[j [Hj ->]] | [[Hn [Hu ->]] | [Hn [b [Hb ->]]]]];
    [| done | done].
  intros [=]. lia.
Qed.

(** X5. A token outside the vocabulary that is not a name of
    [Object.prototype] is encoded by the OOV id 1. *)
Lemma encode_token_oov (emails : TrainingData) (text token : jsstring) :
  token ∈ tokensOf text ->
  getOwn (createVocabulary emails) token = None ->
  getInherited token = VUndefined ->
  or (get (createVocabulary emails) token) (get (createVocabulary emails) (lit "<UNK>"))
  = VNumber 1.
Proof.
  intros Htok Hnone Hu.
  destruct (encode_token emails text token Htok) as [[j [Hj _]] | [[Hn [_ ->]] | [Hn [b [Hb _]]]]];
    [| done | congruence].
  destruct (createVocabulary_getOwn emails text token Htok) as [[Hnot _] | [j' [_ Hsome]]];
    [| congruence].
  exfalso. apply Hnot. by eapply list_elem_of_lookup_2.
Qed.

End EncoderFacts.

(** ** Counting and ranking on a corpus free of inherited names *)

Section CountFacts.
Context `{Runtime}.

Lemma countToken_numeric (o : object) (token : jsstring) :
  numeric o -> getInherited token = VUndefined ->
  numeric (countToken o token)
  /\ forall k, countOf (countToken o token) k
               = (countOf o k + if decide (token = k) then 1 else 0)%Z.
Proof.
  intros Hnum Hplain.
  assert (Hproto : token <> lit "__proto__") by (intros ->; discriminate).
  assert (Hval : exists n : Z,
             plusOne (or (get o token) (VNumber 0)) = VNumber n /\ (0 < n)%Z
             /\ n = (countOf o token + 1)%Z).
  { unfold get, countOf. destruct (getOwn o token) as [v|] eqn:Hown.
    - destruct (Hnum token v Hown) as [n [-> Hn]].
      exists (n + 1)%Z. unfold or. simpl.
      destruct (Z.eqb_spec n 0); [lia |]. simpl. split_and!; [done | lia | done].
    - rewrite Hplain. exists 1%Z. split_and!; [reflexivity | lia | done]. }
  destruct Hval as [n [Hval [Hn Hcount]]].
  unfold countToken, set. rewrite Hval.
  destruct (decide (token = lit "__proto__")); [done |].
  split.
  - intros k v. rewrite getOwn_setOwn. destruct (decide (token = k)).
    + intros [= <-]. eauto.
    + apply Hnum.
  - intros k. unfold countOf at 1. rewrite getOwn_setOwn.
    destruct (decide (token = k)) as [<- | Hne]; [lia |].
    fold (countOf o k). lia.
Qed.

Lemma occurrences_cons (k t : jsstring) (tokens : list jsstring) :
  occurrences k (t :: tokens)
  = ((if decide (t = k) then 1 else 0) + occurrences k tokens)%Z.
Proof.
  unfold occurrences. simpl. rewrite bool_decide_decide.
  destruct (decide (t = k)); simpl; lia.
Qed.

Lemma occurrences_app (k : jsstring) (l1 l2 : list jsstring) :
  occurrences k (l1 ++ l2) = (occurrences k l1 + occurrences k l2)%Z.
Proof.
  unfold occurrences. rewrite List.filter_app, length_app. lia.
Qed.

Lemma countTokens_numeric (tokens : list jsstring) (o : object) :
  numeric o -> Forall (fun t => getInherited t = VUndefined) tokens ->
  numeric (foldl countToken o tokens)
  /\ forall k, countOf (foldl countToken o tokens) k
               = (countOf o k + occurrences k tokens)%Z.
Proof.
  revert o. induction tokens as [|t tokens IH]; intros o Hnum Hplain; simpl.
  - split; [done |]. intros k. unfold occurrences. simpl. lia.
  - inversion Hplain as [|? ? Ht Hrest]; subst.
    destruct (countToken_numeric o t Hnum Ht) as [Hnum' Hcount'].
    destruct (IH _ Hnum' Hrest) as [Hnum'' Hcount''].
    split; [done |]. intros k. rewrite Hcount'', Hcount', occurrences_cons. lia.
Qed.

Lemma countEmails_numeric (emails : TrainingData) (o : object) :
  numeric o -> Forall (fun t => getInherited t = VUndefined) (corpusTokens emails) ->
  numeric (foldl countEmail o emails)
  /\ forall k, countOf (foldl countEmail o emails) k
               = (countOf o k + occurrences k (corpusTokens emails))%Z.
Proof.
  revert o. induction emails as [|e emails IH]; intros o Hnum Hplain; simpl.
  - split; [done |]. intros k. unfold occurrences. simpl. lia.
  - unfold corpusTokens in Hplain. simpl in Hplain.
    apply Forall_app in Hplain as [He Hrest].
    destruct (countTokens_numeric _ o Hnum He) as [Hnum' Hcount'].
    destruct (IH _ Hnum' Hrest) as [Hnum'' Hcount''].
    split; [done |]. intros k. rewrite Hcount'', Hcount'.
    unfold corpusTokens at 2. simpl. rewrite occurrences_app.
    fold (corpusTokens emails). lia.
Qed.

(** On such a corpus the count of a word is its number of occurrences. *)
Lemma wordCountsOf_numeric (emails : TrainingData) :
  Forall (fun t => getInherited t = VUndefined) (corpusTokens emails) ->
  numeric (wordCountsOf emails)
  /\ forall k, countOf (wordCountsOf emails) k = occurrences k (corpusTokens emails).
Proof.
  intros Hplain.
  assert (Hempty : numeric []) by (intros k v; discriminate).
  destruct (countEmails_numeric emails [] Hempty Hplain) as [Hnum Hcount].
  split; [done |]. intros k. rewrite Hcount. reflexivity.
Qed.

Lemma insertSorted_ext_in {A} (after after' : A -> A -> bool) (x : A) (l : list A) :
  (forall y, y ∈ l -> after x y = after' x y) ->
  insertSorted after x l = insertSorted after' x l.
Proof.
  induction l as [|y l IH]; intros Hext; simpl; [done |].
  rewrite <- (Hext y) by left. destruct (after x y); [| done].
  f_equal. apply IH. intros z Hz. apply Hext. by right.
Qed.

Lemma stableSort_ext_in {A} (after after' : A -> A -> bool) (l : list A) :
  (forall x y, x ∈ l -> y ∈ l -> after x y = after' x y) ->
  stableSort after l = stableSort after' l.
Proof.
  induction l as [|x l IH]; intros Hext; simpl; [done |].
  rewrite <- IH by (intros y z Hy Hz; apply Hext; by right).
  apply insertSorted_ext_in. intros y Hy. apply Hext; [left |].
  right. by rewrite <- (stableSort_Permutation after l).
Qed.

Lemma insertSorted_sorted {A} (f : A -> Z) (x : A) (l : list A) :
  StronglySorted (fun a b => (f b <= f a)%Z) l ->
  StronglySorted (fun a b => (f b <= f a)%Z)
                 (insertSorted (fun a b => (f a <? f b)%Z) x l).
Proof.
  induction l as [|y l IH]; intros Hs; simpl.
  - repeat constructor.
  - apply StronglySorted_inv in Hs as [Hs Hy].
    destruct (Z.ltb_spec (f x) (f y)) as [Hlt | Hge].
    + constructor; [by apply IH |].
      rewrite insertSorted_Permutation. constructor; [lia | done].
    + constructor; [by constructor |].
      constructor; [done |]. eapply Forall_impl; [exact Hy |].
      simpl. intros z Hz. lia.
Qed.

Lemma stableSort_sorted {A} (f : A -> Z) (l : list A) :
  StronglySorted (fun a b => (f b <= f a)%Z)
                 (stableSort (fun a b => (f a <? f b)%Z) l).
Proof.
  induction l as [|x l IH]; simpl; [constructor |]. by apply insertSorted_sorted.
Qed.

(** On such a corpus the sorted words run from the most to the least
    frequent. *)
Lemma sortedWordsOf_descending (emails : TrainingData) :
  Forall (fun t => getInherited t = VUndefined) (corpusTokens emails) ->
  StronglySorted (fun a b => (occurrences b (corpusTokens emails)
                              <= occurrences a (corpusTokens emails))%Z)
                 (sortedWordsOf emails).
Proof.
  intros Hplain. destruct (wordCountsOf_numeric emails Hplain) as [Hnum Hcount].
  unfold sortedWordsOf.
  rewrite (stableSort_ext_in _
             (fun a b => (occurrences a (corpusTokens emails)
                          <? occurrences b (corpusTokens emails))%Z)).
  - apply (stableSort_sorted (fun a => occurrences a (corpusTokens emails))).
  - intros a b Ha Hb. rewrite keys_Permutation in Ha, Hb.
    assert (Hget : forall k, k ∈ (wordCountsOf emails).*1 ->
              get (wordCountsOf emails) k = VNumber (occurrences k (corpusTokens emails))).
    { intros k Hk. rewrite <- Hcount. unfold get, countOf.
      destruct (getOwn (wordCountsOf emails) k) as [v|] eqn:Hown.
      - destruct (Hnum k v Hown) as [n [-> _]]. done.
      - apply getOwn_None in Hown. done. }
    rewrite (Hget a Ha), (Hget b Hb). unfold minus, positive. simpl.
    destruct (Z.ltb_spec 0 (occurrences b (corpusTokens emails)
                            - occurrences a (corpusTokens emails))),
             (Z.ltb_spec (occurrences a (corpusTokens emails))
                         (occurrences b (corpusTokens emails))); done || lia.
Qed.

(** X7. In a corpus free of the names of [Object.prototype], the ids
    2, 3, ... go to words of descending frequency. *)
Lemma topWordsOf_descending (emails : TrainingData) :
  Forall (fun t => getInherited t = VUndefined) (corpusTokens emails) ->
  StronglySorted (fun a b => (occurrences b (corpusTokens emails)
                              <= occurrences a (corpusTokens emails))%Z)
                 (topWordsOf emails).
Proof.
  intros Hplain. pose proof (sortedWordsOf_descending emails Hplain) as Hs.
  rewrite <- (take_drop (VOCAB_SIZE - 2) (sortedWordsOf emails)) in Hs.
  by apply StronglySorted_app_1_l in Hs.
Qed.

(** In such a corpus a word left out of the vocabulary occurs no more
    often than any word kept. *)
Lemma topWordsOf_most_frequent (emails : TrainingData) (kept dropped : jsstring) :
  Forall (fun t => getInherited t = VUndefined) (corpusTokens emails) ->
  kept ∈ topWordsOf emails ->
  dropped ∈ drop (VOCAB_SIZE - 2) (sortedWordsOf emails) ->
  (occurrences dropped (corpusTokens emails) <= occurrences kept (corpusTokens emails))%Z.
Proof.
  intros Hplain Hk Hd. pose proof (sortedWordsOf_descending emails Hplain) as Hs.
  rewrite <- (take_drop (VOCAB_SIZE - 2) (sortedWordsOf emails)) in Hs.
  by apply (StronglySorted_app_1_elem_of _ _ _ kept dropped) in Hs.
Qed.

End CountFacts.

(** ** Message bodies and document texts *)

Section TextFacts.
Context `{Runtime} `{TensorFlow} `{Api}.

Lemma MessagePart_nested_ind (P : MessagePart -> Prop) :
  (forall mimeType bodyData, P (mkPart mimeType bodyData None)) ->
  (forall mimeType bodyData sub, Forall P sub -> P (mkPart mimeType bodyData (Some sub))) ->
  forall part, P part.
Proof.
  intros Hleaf Hnode.
  exact (fix IH (part : MessagePart) : P part :=
           match part with
           | mkPart mt d None => Hleaf mt d
           | mkPart mt d (Some sub) =>
               Hnode mt d sub
                 ((fix all (l : list MessagePart) : Forall P l :=
                     match l with
                     | [] => @List.Forall_nil _ P
                     | q :: l' => @List.Forall_cons _ P q l' (IH q) (all l')
                     end) sub)
           end).
Qed.

Lemma parsePart_unfold (mt d : option jsstring) (sub : option (list MessagePart)) :
  parsePart (mkPart mt d sub)
  = match bool_decide (mt = Some (lit "text/plain")), present d with
    | true, Some data => Some (base64ToUtf8 data)
    | _, _ =>
        match sub with
        | Some subparts =>
            if nonEmpty (parseLoop subparts) then Some (parseLoop subparts) else None
        | None => None
        end
    end.
Proof. reflexivity. Qed.

Lemma parseLoop_found (ps : list MessagePart) :
  Forall (fun p => forall r, parsePart p = Some r -> r <> [] ->
            exists q data, within q [p] /\ plainText q data /\ r = base64ToUtf8 data) ps ->
  parseLoop ps <> [] ->
  exists q data, within q ps /\ plainText q data /\ parseLoop ps = base64ToUtf8 data.
Proof.
  induction ps as [|p ps IH]; intros Hall Hbody; simpl in *; [done |].
  inversion Hall as [|? ? Hp Hps]; subst.
  destruct (parsePart p) as [r|] eqn:Hr.
  - destruct (Hp r eq_refl Hbody) as [q [data [Hq [Hplain ->]]]].
    exists q, data. split; [| done].
    inversion Hq as [? Hin | p' sub ? Hin Hsub Hbelow]; subst.
    + apply list_elem_of_singleton in Hin as ->. apply within_here. left.
    + apply list_elem_of_singleton in Hin as ->.
      eapply within_below; [left | done | done].
  - destruct (IH Hps Hbody) as [q [data [Hq [Hplain Heq]]]].
    exists q, data. split; [| done].
    inversion Hq as [? Hin | p' sub ? Hin Hsub Hbelow]; subst.
    + apply within_here. by right.
    + eapply within_below; [by right | done | done].
Qed.

Lemma parsePart_found (p : MessagePart) (r : jsstring) :
  parsePart p = Some r -> r <> [] ->
  exists q data, within q [p] /\ plainText q data /\ r = base64ToUtf8 data.
Proof.
  revert r. induction p as [mt d | mt d sub IH] using MessagePart_nested_ind;
    intros r; rewrite parsePart_unfold.
  - destruct (bool_decide (mt = Some (lit "text/plain"))) eqn:Hmt; [| done].
    destruct (present d) as [data|] eqn:Hd; [| done].
    intros [= <-] _. exists (mkPart mt d None), data.
    split; [apply within_here; left |]. split; [| done].
    split; [by apply bool_decide_eq_true in Hmt | done].
  - assert (Hsub : (if nonEmpty (parseLoop sub) then Some (parseLoop sub) else None) = Some r ->
              r <> [] ->
              exists q data, within q [mkPart mt d (Some sub)] /\ plainText q data
                             /\ r = base64ToUtf8 data).
    { destruct (nonEmpty (parseLoop sub)); [| done]. intros [= <-] Hne.
      destruct (parseLoop_found sub IH Hne) as [q [data [Hq [Hplain Heq]]]].
      exists q, data. split; [| done].
      eapply within_below; [left | reflexivity | done]. }
    destruct (bool_decide (mt = Some (lit "text/plain"))) eqn:Hmt; [| done].
    destruct (present d) as [data|] eqn:Hd; [| done].
    intros [= <-] _. exists (mkPart mt d (Some sub)), data.
    split; [apply within_here; left |]. split; [| done].
    split; [by apply bool_decide_eq_true in Hmt | done].
Qed.

(** A body that is not empty is the decoded data of a text/plain part of
    the message. *)
Lemma emailBody_plainText (email : Message) :
  emailBody email <> [] ->
  exists ps q data,
    payload email ≫= payloadParts = Some ps
    /\ within q ps /\ plainText q data /\ emailBody email = base64ToUtf8 data.
Proof.
  unfold emailBody, parseEmailBody.
  destruct (payload email ≫= payloadParts) as [ps|]; [| done].
  intros Hbody. exists ps.
  destruct (parseLoop_found ps) as [q [data Hq]]; [| done | by exists q, data].
  apply Forall_forall. intros p _ r. apply parsePart_found.
Qed.

Lemma replaceWs_empty (inRun : bool) (s : jsstring) :
  replaceWsFrom (lit "") inRun s = filter (fun c => isWhiteSpace c = false) s.
Proof.
  revert inRun. induction s as [|c s IH]; intros inRun; [done |].
  cbn [replaceWsFrom]. rewrite filter_cons. destruct (isWhiteSpace c) eqn:Hc.
  - rewrite decide_False by congruence. destruct inRun; apply IH.
  - rewrite decide_True by done. by rewrite IH.
Qed.

Lemma replaceWs_space_strip (inRun : bool) (s : jsstring) :
  filter (fun c => isWhiteSpace c = false) (replaceWsFrom (lit " ") inRun s)
  = filter (fun c => isWhiteSpace c = false) s.
Proof.
  revert inRun. induction s as [|c s IH]; intros inRun; [done |].
  cbn [replaceWsFrom]. rewrite (filter_cons _ c s). destruct (isWhiteSpace c) eqn:Hc.
  - rewrite decide_False by congruence. destruct inRun; [apply IH |].
    change (lit " " ++ replaceWsFrom (lit " ") true s)
      with (32%N :: replaceWsFrom (lit " ") true s).
    rewrite filter_cons, decide_False by done. apply IH.
  - rewrite decide_True by done. rewrite filter_cons, decide_True by done.
    by rewrite IH.
Qed.

Lemma trimStart_strip (s : jsstring) :
  filter (fun c => isWhiteSpace c = false) (trimStart s)
  = filter (fun c => isWhiteSpace c = false) s.
Proof.
  induction s as [|c s IH]; [done |].
  cbn [trimStart]. destruct (isWhiteSpace c) eqn:Hc; [| done].
  by rewrite (filter_cons _ c s), decide_False by congruence.
Qed.

Lemma trim_strip (s : jsstring) :
  filter (fun c => isWhiteSpace c = false) (trim s)
  = filter (fun c => isWhiteSpace c = false) s.
Proof.
  unfold trim, trimEnd.
  rewrite filter_reverse, trimStart_strip, <- filter_reverse, reverse_involutive.
  apply trimStart_strip.
Qed.

Lemma trimStart_id (s : jsstring) :
  Forall (fun c => isWhiteSpace c = false) s -> trimStart s = s.
Proof. destruct 1 as [|c s Hc Hs]; simpl; [done |]. by rewrite Hc. Qed.

Lemma trim_id (s : jsstring) :
  Forall (fun c => isWhiteSpace c = false) s -> trim s = s.
Proof.
  intros Hs. unfold trim, trimEnd. rewrite (trimStart_id s Hs).
  rewrite trimStart_id; [apply reverse_involutive |].
  by apply Forall_reverse.
Qed.

Lemma filter_id {A} (P : A -> Prop) `{forall x, Decision (P x)} (l : list A) :
  filter P l = l <-> Forall P l.
Proof.
  split.
  - intros Heq. rewrite <- Heq. apply Forall_forall. intros x Hx.
    by apply list_elem_of_filter in Hx as [? _].
  - induction 1 as [|x l Hx Hl IH]; [done |].
    by rewrite filter_cons, decide_True, IH by done.
Qed.

(** The text of the inference path is the text of the training path
    with its white space taken out. *)
Lemma inferenceText_strips (subject body : jsstring) :
  inferenceText subject body
  = filter (fun c => isWhiteSpace c = false) (trainingText subject body).
Proof.
  unfold inferenceText, trainingText, replaceWs.
  rewrite trim_strip, replaceWs_space_strip, replaceWs_empty.
  apply trim_id. apply Forall_forall. intros c Hc.
  by apply list_elem_of_filter in Hc as [? _].
Qed.

(** X17. The training path and the inference path agree on a message
    exactly when its training text holds no white space, that is, is a
    single word or empty. *)
Lemma texts_agree_iff (subject body : jsstring) :
  inferenceText subject body = trainingText subject body
  <-> Forall (fun c => isWhiteSpace c = false) (trainingText subject body).
Proof. rewrite inferenceText_strips. apply filter_id. Qed.

End TextFacts.

(** * The claims *)

(** ** The classifier *)

Section ClassifierClaims.
Context `{Runtime} `{TensorFlow}.

(** [load] leaves [this.labels] as it found it. *)
Lemma load_keeps_labels (s : store) (this this' : Classifier) :
  load s this = Loaded this' -> labels this' = labels this.
Proof.
  unfold load. intros Hload.
  destruct (loadLayersModel s MODEL_PATH) as [m|]; [| discriminate].
  destruct (readFile s VOCAB_PATH) as [[v| | |]|]; try discriminate;
    destruct (readFile s LABELS_PATH); try discriminate.
  by injection Hload as <-.
Qed.

(** Hence no [predict] that follows [load] on a new classifier gets
    past the guard. *)
Lemma predict_after_load (s : store) (this : Classifier) (text : jsstring)
    (log : list effect) :
  load s newClassifier = Loaded this ->
  predict this text log
  = (Ok PNull, log ++ [ConsoleError (lit "Classifier not loaded. Call load() first.")]).
Proof.
  intros Hload. apply load_keeps_labels in Hload. simpl in Hload.
  unfold predict. rewrite Hload. by destruct (model this), (vocabulary this).
Qed.

(** C1 (defect in the code). [load] reads labels.json into [labelsData]
    and never assigns [this.labels]. So on every model directory from
    which [load] returns for a new classifier, with the model and the
    vocabulary of the directory in its fields and the label file read,
    [this.labels] is still null and the guard of [predict] stops every
    text: [predict] logs "Classifier not loaded" and returns null
    instead of the label at the argmax index. *)
Theorem predict_after_load_returns_null (s : store) (this : Classifier) (text : jsstring)
    (log : list effect) :
  load s newClassifier = Loaded this ->
  (exists m v labelsData,
     s !! MODEL_PATH = Some (ModelJson m)
     /\ s !! VOCAB_PATH = Some (VocabularyJson v)
     /\ readFile s LABELS_PATH = Some labelsData
     /\ model this = Some m /\ vocabulary this = Some v)
  /\ labels this = None
  /\ predict this text log
     = (Ok PNull, log ++ [ConsoleError (lit "Classifier not loaded. Call load() first.")]).
Proof.
  intros Hload. split_and!.
  - unfold load, loadLayersModel in Hload.
    destruct (s !! MODEL_PATH) as [[| | |m]|]; try discriminate.
    destruct (readFile s VOCAB_PATH) as [[v| | |]|] eqn:Hv; try discriminate;
      destruct (readFile s LABELS_PATH) as [labelsData|]; try discriminate.
    injection Hload as <-. exists m, v, labelsData. split_and!; try done.
    unfold readFile in Hv. by destruct (s !! VOCAB_PATH) as [[| | |]|]; simplify_eq.
  - by apply load_keeps_labels in Hload.
  - by apply predict_after_load with s.
Qed.

(** C7. A classifier of which [load] has not set every field answers
    [predict] with null after logging "Classifier not loaded": it
    neither throws nor returns a label, whatever the text. *)
Theorem predict_not_loaded (this : Classifier) (text : jsstring) (log : list effect) :
  model this = None \/ vocabulary this = None \/ labels this = None ->
  predict this text log
  = (Ok PNull, log ++ [ConsoleError (lit "Classifier not loaded. Call load() first.")]).
Proof.
  unfold predict. intros [-> | [Hv | Hl]]; [done | |].
  - rewrite Hv. by destruct (model this).
  - rewrite Hl. by destruct (model this), (vocabulary this).
Qed.

(** C6. On an empty corpus [trainModel] logs the no-training-data error
    and returns: the error is its only call, so no directory is made,
    no vocabulary, model or label file is written, and the model
    directory is as it was. *)
Theorem trainModel_empty (log : list effect) (s : store) :
  trainModel [] log
  = (Ok tt, log ++ [ConsoleError (lit "Cannot train model: No training data provided.")])
  /\ replay (trainModel [] log).2 s = replay log s.
Proof.
  split; [reflexivity |].
  change (trainModel [] log).2
    with (log ++ [ConsoleError (lit "Cannot train model: No training data provided.")]).
  by rewrite replay_app.
Qed.

Lemma paths_distinct :
  VOCAB_PATH <> MODEL_PATH /\ VOCAB_PATH <> LABELS_PATH /\ MODEL_PATH <> LABELS_PATH.
Proof. split_and!; discriminate. Qed.



End ClassifierClaims.

(** ** The webhook *)

Section ServerClaims.
Context `{Runtime} `{TensorFlow} `{Api}.

Lemma getEmailContent_cases (messageId : jsstring) (log : list effect) :
  getEmailContent messageId log
  = match messagesGet messageId with
    | None =>
        (Ok None,
         log ++ [MessagesGet messageId;
                 ConsoleError (lit "Error fetching email " ++ messageId ++ lit ":")])
    | Some None => (Ok None, log ++ [MessagesGet messageId])
    | Some (Some email) =>
        (Ok (Some (inferenceText (emailSubject email) (emailBody email))),
         log ++ [MessagesGet messageId])
    end.
Proof.
  unfold getEmailContent, tryCatch, bind, call, emit, ret.
  destruct (messagesGet messageId) as [[email|]|]; simpl; try reflexivity.
  by rewrite <- app_assoc.
Qed.

(** C8. When the history lookup answers and none of its records holds an
    added message, the handler acknowledges with success and "No new
    messages in history."; its only call is the lookup itself, so neither
    [predict] nor the label calls are made. A second delivery of the
    same event, with the same answer, ends the same way. *)
Theorem webhook_no_new_messages (classifier : Classifier) (event : PushEvent)
    (historyResponse : HistoryResponse) (log : list effect) :
  historyList (historyId event) = Some historyResponse ->
  (forall records record,
     history historyResponse = Some records -> record ∈ records ->
     messagesAdded record = None \/ messagesAdded record = Some []) ->
  let ack := json true (Some "No new messages in history.") None in
  let lookup := HistoryList (historyId event) in
  webhook classifier (Some event) log = (Ok ack, log ++ [lookup])
  /\ webhook classifier (Some event) (log ++ [lookup]) = (Ok ack, (log ++ [lookup]) ++ [lookup]).
Proof.
  intros Hlist Hnone ack lookup.
  assert (Hrun : forall l, webhook classifier (Some event) l = (Ok ack, l ++ [lookup])).
  { intros l. unfold webhook, tryCatch, bind, call, ret. rewrite Hlist.
    assert (Hfirst : firstAdded historyResponse = None
                     \/ firstAdded historyResponse = Some []).
    { unfold firstAdded. destruct (history historyResponse) as [[|record records]|] eqn:Hh;
        [by left | | by left].
      apply (Hnone (record :: records)); [done | left]. }
    destruct Hfirst as [-> | ->]; reflexivity. }
  split; apply Hrun.
Qed.

(** C9. When the first added message has an id and its content cannot be
    had (the fetch is rejected, answers without data, or yields a text
    that is empty), the handler acknowledges with failure and "Content
    fetch failed."; its calls are the history lookup, the one fetch and
    at most an error line, so neither [predict] nor the label calls are
    made. *)
Theorem webhook_content_unavailable (classifier : Classifier) (event : PushEvent)
    (historyResponse : HistoryResponse) (record : History) (records : list History)
    (first : MessageAdded) (rest : list MessageAdded) (id : jsstring)
    (log : list effect) :
  historyList (historyId event) = Some historyResponse ->
  history historyResponse = Some (record :: records) ->
  messagesAdded record = Some (first :: rest) ->
  present (Gmail.message first ≫= Gmail.messageId) = Some id ->
  (messagesGet id = None
   \/ messagesGet id = Some None
   \/ exists email, messagesGet id = Some (Some email)
        /\ inferenceText (emailSubject email) (emailBody email) = []) ->
  exists errors,
    webhook classifier (Some event) log
    = (Ok (json false (Some "Content fetch failed.") None),
       log ++ [HistoryList (historyId event); MessagesGet id] ++ errors)
    /\ Forall (fun e => exists msg, e = ConsoleError msg) errors.
Proof.
  intros Hlist Hh Hadded Hid Hcontent.
  unfold webhook, tryCatch, bind, call, ret. rewrite Hlist.
  unfold firstAdded. rewrite Hh, Hadded, Hid.
  rewrite getEmailContent_cases.
  destruct Hcontent as [-> | [-> | [email [-> Hempty]]]].
  - eexists [_]. split; [| repeat constructor; eauto].
    simpl. by rewrite <- !app_assoc.
  - exists []. split; [| constructor]. simpl. by rewrite <- !app_assoc.
  - exists []. split; [| constructor]. rewrite Hempty. simpl. by rewrite <- !app_assoc.
Qed.

(** With a classifier that came out of [load], an event whose message
    has content ends in "Prediction failed.": [predict] stops at its
    guard (see [load_keeps_labels]) and no label is ever applied. *)
Lemma webhook_after_load (s : store) (classifier : Classifier) (event : PushEvent)
    (historyResponse : HistoryResponse) (record : History) (records : list History)
    (first : MessageAdded) (rest : list MessageAdded) (id : jsstring) (email : Message)
    (c : N) (text : jsstring) (log : list effect) :
  load s newClassifier = Loaded classifier ->
  historyList (historyId event) = Some historyResponse ->
  history historyResponse = Some (record :: records) ->
  messagesAdded record = Some (first :: rest) ->
  present (Gmail.message first ≫= Gmail.messageId) = Some id ->
  messagesGet id = Some (Some email) ->
  inferenceText (emailSubject email) (emailBody email) = c :: text ->
  webhook classifier (Some event) log
  = (Ok (json false (Some "Prediction failed.") None),
     log ++ [HistoryList (historyId event); MessagesGet id;
             ConsoleError (lit "Classifier not loaded. Call load() first.")]).
Proof.
  intros Hload Hlist Hh Hadded Hid Hget Htext.
  unfold webhook, tryCatch, bind, call, ret. rewrite Hlist.
  unfold firstAdded. rewrite Hh, Hadded, Hid.
  rewrite getEmailContent_cases, Hget, Htext.
  change (present (Some (c :: text))) with (Some (c :: text)). cbv beta iota.
  rewrite (predict_after_load s classifier (c :: text) _ Hload).
  by rewrite <- !app_assoc.
Qed.

End ServerClaims.

(** ** [getEmailsForLabel] *)

Section FetchClaims.
Context `{Runtime} `{TensorFlow} `{Api}.

Lemma call_Ok {A} (e : effect) (answer : option A) log a log' :
  call e answer log = (Ok a, log') -> answer = Some a.
Proof. unfold call. destruct answer; intros [=]; by subst. Qed.

Lemma present_Some (s : option jsstring) (t : jsstring) :
  present s = Some t -> s = Some t /\ present (Some t) = Some t.
Proof. destruct s as [[|c s]|]; intros [=]; by subst. Qed.

Lemma getAnswer_fetched (m email : Message) :
  getAnswer m = Some (Some email) -> exists id, messagesGet id = Some (Some email).
Proof.
  unfold getAnswer. destruct (present (messageId m)) as [id|]; [eauto | discriminate].
Qed.

Lemma pushEmail_spec (l : jsstring) (td : list Document) (email : option Message) :
  Forall (fromMailbox l) td ->
  (forall e, email = Some e -> exists id, messagesGet id = Some (Some e)) ->
  Forall (fromMailbox l) (pushEmail l td email)
  /\ length (pushEmail l td email) <= S (length td).
Proof.
  intros Htd Hfetched. unfold pushEmail.
  destruct email as [e|]; [| split; [done | lia]].
  destruct (nonEmpty (emailBody e)) eqn:Hbody; [| split; [done | lia]].
  assert (Hne : emailBody e <> []) by (intros Heq; by rewrite Heq in Hbody).
  destruct (Hfetched e eq_refl) as [id Hid].
  destruct (emailBody_plainText e Hne) as [ps [q [data [Hps [Hq [Hplain Heq]]]]]].
  split.
  - apply Forall_app. split; [done |]. constructor; [| constructor].
    split; [reflexivity |]. exists id, e, ps, q, data. simpl. rewrite <- Heq. done.
  - rewrite length_app. simpl. lia.
Qed.

Lemma pushEmails_spec (l : jsstring) (emails : list (option Message)) (td : list Document) :
  Forall (fromMailbox l) td ->
  Forall (fun a => forall e, a = Some e -> exists id, messagesGet id = Some (Some e)) emails ->
  Forall (fromMailbox l) (foldl (pushEmail l) td emails)
  /\ length (foldl (pushEmail l) td emails) <= length td + length emails.
Proof.
  revert td. induction emails as [|a emails IH]; intros td Htd Hall; simpl.
  - split; [done | lia].
  - inversion Hall as [|? ? Ha Hrest]; subst.
    destruct (pushEmail_spec l td a Htd Ha) as [Hp Hlen].
    destruct (IH _ Hp Hrest) as [Hp' Hlen']. split; [done | lia].
Qed.

Lemma fetchChunk_Ok (chunk : list Message) log emails log' :
  fetchChunk chunk log = (Ok emails, log') ->
  length emails = length chunk
  /\ Forall (fun a => forall e, a = Some e -> exists id, messagesGet id = Some (Some e)) emails.
Proof.
  unfold fetchChunk. destruct (mapM getAnswer chunk) as [answers|] eqn:Hmap; intros [=]; subst.
  apply mapM_Some in Hmap. split; [symmetry; by eapply Forall2_length |].
  apply Forall_forall. intros a Ha e ->.
  apply list_elem_of_lookup in Ha as [i Hi].
  destruct (Forall2_lookup_r _ _ _ _ _ Hmap Hi) as [m [_ Hm]].
  by apply getAnswer_fetched in Hm.
Qed.

Lemma fetchChunk_not_OutOfFuel (chunk : list Message) log :
  (fetchChunk chunk log).1 <> OutOfFuel.
Proof. unfold fetchChunk. by destruct (mapM getAnswer chunk). Qed.

Lemma processChunks_Ok (l : jsstring) (chunks : list (list Message)) (td : list Document)
    log docs log' :
  processChunks l chunks td log = (Ok docs, log') ->
  Forall (fromMailbox l) td ->
  Forall (fromMailbox l) docs /\ length docs <= length td + length (concat chunks).
Proof.
  revert td log. induction chunks as [|chunk chunks IH]; intros td log Hrun Htd; simpl in *.
  - injection Hrun as <- <-. split; [done | lia].
  - apply bind_Ok in Hrun as [emails [log1 [Hchunk Hrest]]].
    apply fetchChunk_Ok in Hchunk as [Hlen Hfetched].
    destruct (pushEmails_spec l emails td Htd Hfetched) as [Hp Hlen'].
    destruct (IH _ _ Hrest Hp) as [Hdocs Hlen''].
    split; [done |]. rewrite length_app. lia.
Qed.

Lemma processChunks_not_OutOfFuel (l : jsstring) (chunks : list (list Message))
    (td : list Document) log :
  (processChunks l chunks td log).1 <> OutOfFuel.
Proof.
  revert td log. induction chunks as [|chunk chunks IH]; intros td log; simpl; [done |].
  apply bind_not_OutOfFuel; [apply fetchChunk_not_OutOfFuel |].
  intros emails log1 _. apply IH.
Qed.

Lemma slices_length {A} (fuel chunkSize : nat) (l : list A) :
  length (concat (slices fuel chunkSize l)) <= length l.
Proof.
  revert l. induction fuel as [|fuel IH]; intros l; simpl; [lia |].
  destruct l as [|x l]; simpl; [lia |].
  change (concat (take chunkSize (x :: l) :: slices fuel chunkSize (drop chunkSize (x :: l))))
    with (take chunkSize (x :: l) ++ concat (slices fuel chunkSize (drop chunkSize (x :: l)))).
  rewrite length_app. specialize (IH (drop chunkSize (x :: l))).
  rewrite length_take, length_drop in *. simpl length in *. lia.
Qed.

Lemma fetchPages_S (fuel : nat) (q l : jsstring) (maxResults : nat)
    (td : list Document) (pageToken : option jsstring) :
  fetchPages (S fuel) q l maxResults td pageToken
  = if length td <? maxResults
    then
      (let n := min 50 (maxResults - length td) in
       listResponse <- call (MessagesList q n (present pageToken))
                            (messagesList q n (present pageToken)) ;;
       match messages listResponse with
       | None | Some [] => ret td
       | Some msgs =>
           td' <- processChunks l (slices (length msgs) 10 msgs) td ;;
           match present (nextPageToken listResponse) with
           | Some token => fetchPages fuel q l maxResults td' (Some token)
           | None => ret td'
           end
       end)%io
    else ret td.
Proof. reflexivity. Qed.

Section Paging.
Variable rank : option jsstring -> nat.
Hypothesis listed_at_most :
  forall q n pageToken listResponse msgs,
    messagesList q n pageToken = Some listResponse ->
    messages listResponse = Some msgs ->
    length msgs <= n.
Hypothesis pages_run_out :
  forall q n pageToken listResponse next,
    messagesList q n pageToken = Some listResponse ->
    present (nextPageToken listResponse) = Some next ->
    rank (Some next) < rank pageToken.

Lemma fetchPages_Ok (fuel : nat) (q l : jsstring) (maxResults : nat)
    (td : list Document) (pageToken : option jsstring) log docs log' :
  fetchPages fuel q l maxResults td pageToken log = (Ok docs, log') ->
  length td <= maxResults -> Forall (fromMailbox l) td ->
  length docs <= maxResults /\ Forall (fromMailbox l) docs.
Proof.
  revert td pageToken log.
  induction fuel as [|fuel IH]; intros td pageToken log Hrun Hlen Htd;
    [discriminate |].
  rewrite fetchPages_S in Hrun.
  destruct (Nat.ltb_spec (length td) maxResults) as [Hlt | Hge];
    [| injection Hrun as <- <-; by split].
  apply bind_Ok in Hrun as [listResponse [log1 [Hcall Hrun]]].
  apply call_Ok in Hcall.
  destruct (messages listResponse) as [[|m msgs]|] eqn:Hmsgs;
    try (injection Hrun as <- <-; by split).
  apply bind_Ok in Hrun as [td' [log2 [Hchunks Hrun]]].
  apply processChunks_Ok in Hchunks as [Htd' Hlen']; [| done].
  pose proof (slices_length (length (m :: msgs)) 10 (m :: msgs)) as Hslices.
  pose proof (listed_at_most _ _ _ _ _ Hcall Hmsgs) as Hbound.
  assert (Hmax : length td' <= maxResults) by lia.
  destruct (present (nextPageToken listResponse)) as [next|].
  - by apply (IH _ _ _ Hrun).
  - injection Hrun as <- <-. by split.
Qed.

Lemma fetchPages_terminates (fuel : nat) (q l : jsstring) (maxResults : nat)
    (td : list Document) (pageToken : option jsstring) log :
  present pageToken = pageToken -> rank pageToken < fuel ->
  (fetchPages fuel q l maxResults td pageToken log).1 <> OutOfFuel.
Proof.
  revert td pageToken log.
  induction fuel as [|fuel IH]; intros td pageToken log Hpresent Hrank; [lia |].
  rewrite fetchPages_S.
  destruct (length td <? maxResults); [| done].
  rewrite Hpresent. apply bind_not_OutOfFuel.
  - unfold call. by destruct (messagesList _ _ _).
  - intros listResponse log1 Hcall. apply call_Ok in Hcall.
    destruct (messages listResponse) as [[|m msgs]|]; try done.
    apply bind_not_OutOfFuel; [apply processChunks_not_OutOfFuel |].
    intros td' log2 _.
    destruct (present (nextPageToken listResponse)) as [next|] eqn:Hnext; [| done].
    apply IH.
    + by apply present_Some in Hnext as [_ ?].
    + pose proof (pages_run_out _ _ _ _ _ Hcall Hnext). lia.
Qed.

(** C10. Provided the provider lists at most the number of messages it
    is asked for and its pages run out ([rank] bounds the pages that
    follow a page token), [getEmailsForLabel] comes to an end, by
    returning or by the rejection of a call, and what it returns is at
    most [maxResults] documents, each of them carrying the requested
    name as its label and holding the text of a fetched message that
    has a text/plain part whose decoded data is not empty. *)
Theorem getEmailsForLabel_bounded (labelOrCategory : jsstring) (maxResults : nat)
    (log : list effect) :
  (forall fuel, rank None < fuel ->
     (getEmailsForLabel fuel labelOrCategory maxResults log).1 <> OutOfFuel)
  /\ (forall fuel docs log',
        getEmailsForLabel fuel labelOrCategory maxResults log = (Ok docs, log') ->
        length docs <= maxResults /\ Forall (fromMailbox labelOrCategory) docs).
Proof.
  split.
  - intros fuel Hfuel. by apply fetchPages_terminates.
  - intros fuel docs log' Hrun.
    apply fetchPages_Ok in Hrun; [done | simpl; lia | constructor].
Qed.

End Paging.

End FetchClaims.

(** ** Claims that the code breaks *)

Section Defects.
Import Examples.

(** C4 (defect in the code). [textToSequence] is declared to return
    numbers, and for a built vocabulary every element should be an id
    below its size. A token that names a property of [Object.prototype]
    and has no own entry is looked up through the prototype: the text
    "constructor" is encoded with the function [Object] in front of 99
    padding ids, which is not an id at all. The length, the truncation
    and the padding are as claimed for every text
    ([textToSequence_length], [textToSequence_truncates],
    [textToSequence_pads]), and so is the range of the ids for texts
    free of such tokens ([textToSequence_ids]). *)
Theorem textToSequence_inherited_object :
  let V := @createVocabulary asciiRuntime [doc "hello" "A"] in
  @textToSequence asciiRuntime (lit "constructor") V
  = VBuiltin ObjectConstructor :: replicate 99 (VNumber 0)
  /\ ~ Forall (isIdBelow (sizeOf V)) (@textToSequence asciiRuntime (lit "constructor") V).
Proof.
  intros V.
  assert (Hseq : @textToSequence asciiRuntime (lit "constructor") V
                 = VBuiltin ObjectConstructor :: replicate 99 (VNumber 0))
    by (vm_compute; reflexivity).
  split; [exact Hseq |].
  rewrite Hseq. intros Hall. apply Forall_cons_1 in Hall as [[n [Hn _]] _].
  discriminate.
Qed.

(** C5 (defect in the code, the same one as for C4). The reserved ids,
    the numbering from 2, the size bound and the absence of the padding
    id hold for every corpus ([createVocabulary_reserved],
    [createVocabulary_shape], [createVocabulary_size_le],
    [sequenceOf_not_padding]). But the token "constructor", absent from
    the vocabulary built from "hello", is encoded by the inherited
    function [Object] and not by the OOV id 1; and in a corpus that
    holds it, its count starts from that function's text, the comparator
    yields NaN, and it is numbered before a more frequent word. For
    tokens and corpora free of the names of [Object.prototype] see
    [encode_token_oov] and [topWordsOf_descending]. *)
Theorem absent_token_not_oov :
  (let V := @createVocabulary asciiRuntime [doc "hello" "A"] in
   @tokensOf asciiRuntime (lit "constructor") = [lit "constructor"]
   /\ getOwn V (lit "constructor") = None
   /\ (lit "constructor" ∉ keys V)
   /\ @sequenceOf asciiRuntime (lit "constructor") V = [VBuiltin ObjectConstructor])
  /\ @wordCountsOf asciiRuntime [doc "constructor a a" "A"]
     = [(lit "constructor", VString (lit "function Object() { [native code] }1"));
        (lit "a", VNumber 2)]
  /\ @createVocabulary asciiRuntime [doc "constructor a a" "A"]
     = [(lit "<PAD>", VNumber 0); (lit "<UNK>", VNumber 1);
        (lit "constructor", VNumber 2); (lit "a", VNumber 3)].
Proof.
  split; [| split; vm_compute; reflexivity].
  intros V. split_and!; try (vm_compute; reflexivity).
  rewrite keys_Permutation. apply getOwn_None. vm_compute. reflexivity.
Qed.

(** C2 (defect in the code). The same message yields two different
    document texts: [getEmailsForLabel] replaces each run of white space
    by one space, [getEmailContent] by nothing, so that the words of the
    message run together at inference time. The two texts agree only
    when the training text is a single word ([texts_agree_iff]). *)
Theorem training_and_inference_text_differ :
  @getEmailsForLabel asciiRuntime constantTf oneMailApi 1 (lit "Primary") 1 []
  = (Ok [ {| content := lit "Hi there friend"; label := lit "Primary" |} ],
     [MessagesList (lit "category:primary") 1 None; MessagesGet (lit "m1")])
  /\ @getEmailContent asciiRuntime constantTf oneMailApi (lit "m1") []
     = (Ok (Some (lit "Hitherefriend")), [MessagesGet (lit "m1")])
  /\ trainingText (lit "Hi") (lit "there friend")
     <> inferenceText (lit "Hi") (lit "there friend").
Proof.
  split_and!; [vm_compute; reflexivity | vm_compute; reflexivity |].
  vm_compute. discriminate.
Qed.

End Defects.

(** ** The claims at concrete inputs *)

Section Instances.
Import Examples.

(** The tokens of a text. *)
Example tokensOf_sale :
  @tokensOf asciiRuntime (lit "  Sale!  Buy NOW, buy_2 get 1-free ")
  = [lit "sale"; lit "buy"; lit "now"; lit "buy_2"; lit "get"; lit "1free"].
Proof. vm_compute. reflexivity. Qed.

(** A vocabulary: "buy" occurs three times, "now" twice, and "7", an
    array index, is listed before the words it ties with. *)
Example createVocabulary_sale :
  @createVocabulary asciiRuntime [doc "Sale buy now" "A"; doc "buy 7 now, BUY!" "B"]
  = [(lit "<PAD>", VNumber 0); (lit "<UNK>", VNumber 1); (lit "buy", VNumber 2);
     (lit "now", VNumber 3); (lit "7", VNumber 4); (lit "sale", VNumber 5)].
Proof. vm_compute. reflexivity. Qed.

(** The handler with a classifier whose three fields are set (which
    [load] never produces): one prediction, and one label applied. *)
Example webhook_applies_label :
  let classifier : @Classifier.Classifier constantTf :=
    {| model := Some (1 : @LayersModel constantTf);
       vocabulary := Some (@createVocabulary asciiRuntime [doc "sale buy now" "Promotions"]);
       labels := Some [lit "Promotions"] |} in
  @webhook asciiRuntime constantTf oneMailApi classifier
    (Some {| emailAddress := lit "me@example.com"; historyId := 7 |}) []
  = (Ok (json true None (Some (lit "Promotions"))),
     [HistoryList 7; MessagesGet (lit "m1");
      ModelPredict (@textToSequence asciiRuntime (lit "Hitherefriend")
                      (@createVocabulary asciiRuntime [doc "sale buy now" "Promotions"]));
      LabelsList; MessagesModify (lit "m1") (lit "Label_1")]).
Proof. vm_compute. reflexivity. Qed.

(** C7 on a new classifier. *)
Lemma predict_not_loaded_witness :
  (model (@newClassifier constantTf) = None
   \/ vocabulary (@newClassifier constantTf) = None
   \/ labels (@newClassifier constantTf) = None)
  /\ @predict asciiRuntime constantTf newClassifier (lit "Subject: Sale! Buy now") []
     = (Ok PNull, [] ++ [ConsoleError (lit "Classifier not loaded. Call load() first.")]).
Proof.
  split; [left; reflexivity |].
  apply (@predict_not_loaded asciiRuntime constantTf newClassifier
           (lit "Subject: Sale! Buy now") []).
  left; reflexivity.
Defined.

(** C1 on [arrangedDir]: the label file is there, [load] returns, and
    [predict] answers the text of a training document with null. *)
Lemma predict_after_load_returns_null_witness :
  let this : @Classifier.Classifier constantTf :=
    {| model := Some (2 : @LayersModel constantTf);
       vocabulary := Some (@createVocabulary asciiRuntime
                             [doc "hello world" "A"; doc "bye" "B"]);
       labels := None |} in
  arrangedDir !! LABELS_PATH = Some (LabelsJson [lit "A"; lit "B"])
  /\ @load constantTf arrangedDir newClassifier = Loaded this
  /\ (exists m v labelsData,
        arrangedDir !! MODEL_PATH = Some (ModelJson m)
        /\ arrangedDir !! VOCAB_PATH = Some (VocabularyJson v)
        /\ readFile arrangedDir LABELS_PATH = Some labelsData
        /\ model this = Some m /\ vocabulary this = Some v)
  /\ labels this = None
  /\ @predict asciiRuntime constantTf this (lit "hello world") []
     = (Ok PNull, [] ++ [ConsoleError (lit "Classifier not loaded. Call load() first.")]).
Proof.
  intros this.
  split; [vm_compute; reflexivity |]. split; [vm_compute; reflexivity |].
  apply (@predict_after_load_returns_null asciiRuntime constantTf arrangedDir this
           (lit "hello world") []).
  vm_compute. reflexivity.
Defined.



(** C8 on a history without records. *)
Lemma webhook_no_new_messages_witness :
  @historyList pagedApi 7 = Some {| history := None |}
  /\ (forall records record,
        history {| history := None |} = Some records -> record ∈ records ->
        messagesAdded record = None \/ messagesAdded record = Some [])
  /\ @webhook asciiRuntime constantTf pagedApi newClassifier
       (Some {| emailAddress := lit "me@example.com"; historyId := 7 |}) []
     = (Ok (json true (Some "No new messages in history.") None), [HistoryList 7]).
Proof.
  split; [reflexivity |]. split; [intros records record [=] |].
  apply (@webhook_no_new_messages asciiRuntime constantTf pagedApi newClassifier
           {| emailAddress := lit "me@example.com"; historyId := 7 |}
           {| history := None |} []).
  - reflexivity.
  - intros records record [=].
Defined.

(** C9 on a message without subject and body. *)
Lemma webhook_content_unavailable_witness :
  exists errors,
    @webhook asciiRuntime constantTf blankMailApi newClassifier
      (Some {| emailAddress := lit "me@example.com"; historyId := 7 |}) []
    = (Ok (json false (Some "Content fetch failed.") None),
       [] ++ [HistoryList 7; MessagesGet (lit "m0")] ++ errors)
    /\ Forall (fun e => exists msg, e = ConsoleError msg) errors.
Proof.
  eapply (@webhook_content_unavailable asciiRuntime constantTf blankMailApi newClassifier
            {| emailAddress := lit "me@example.com"; historyId := 7 |}).
  - reflexivity.
  - reflexivity.
  - reflexivity.
  - reflexivity.
  - right; right. eexists. split; [reflexivity |]. vm_compute. reflexivity.
Defined.

(** The two pages of [pagedApi], asked for at most five documents. *)
Example getEmailsForLabel_pagedApi :
  @getEmailsForLabel asciiRuntime constantTf pagedApi 2 (lit "Work") 5 []
  = (Ok [ {| content := lit "Sale Buy now"; label := lit "Work" |};
          {| content := lit "Lunch at noon?"; label := lit "Work" |} ],
     [MessagesList (lit "label:work") 5 None;
      MessagesGet (lit "m1"); MessagesGet (lit "m2");
      MessagesList (lit "label:work") 4 (Some (lit "p2"));
      MessagesGet (lit "m3")]).
Proof. vm_compute. reflexivity. Qed.

(** C10 on [pagedApi], whose pages are ranked by [pagedRank]. *)
Lemma getEmailsForLabel_bounded_witness :
  (forall q n pageToken listResponse msgs,
     @messagesList pagedApi q n pageToken = Some listResponse ->
     messages listResponse = Some msgs -> length msgs <= n)
  /\ (forall q n pageToken listResponse next,
        @messagesList pagedApi q n pageToken = Some listResponse ->
        present (nextPageToken listResponse) = Some next ->
        pagedRank (Some next) < pagedRank pageToken)
  /\ (forall fuel, pagedRank None < fuel ->
        (@getEmailsForLabel asciiRuntime constantTf pagedApi fuel (lit "Work") 5 []).1
        <> OutOfFuel)
  /\ (forall fuel docs log',
        @getEmailsForLabel asciiRuntime constantTf pagedApi fuel (lit "Work") 5 []
        = (Ok docs, log') ->
        length docs <= 5 /\ Forall (@fromMailbox asciiRuntime pagedApi (lit "Work")) docs).
Proof.
  assert (Hmost : forall q n pageToken listResponse msgs,
             @messagesList pagedApi q n pageToken = Some listResponse ->
             messages listResponse = Some msgs -> length msgs <= n).
  { intros q n [tok|] listResponse msgs [= <-] [= <-]; rewrite length_take; lia. }
  assert (Hout : forall q n pageToken listResponse next,
             @messagesList pagedApi q n pageToken = Some listResponse ->
             present (nextPageToken listResponse) = Some next ->
             pagedRank (Some next) < pagedRank pageToken).
  { intros q n [tok|] listResponse next [= <-] [=]. simpl. lia. }
  split; [exact Hmost |]. split; [exact Hout |].
  exact (@getEmailsForLabel_bounded asciiRuntime constantTf pagedApi pagedRank
           Hmost Hout (lit "Work") 5 []).
Defined.

End Instances.

(** * Further properties of the code *)

(** ** Tokens, padding and the vocabulary *)

Section EncoderProperties.
Context `{Runtime}.

(** X1. Whatever the text, its tokens are non-empty strings of word
    characters: none holds white space or punctuation, and none is one
    of the two reserved names of the vocabulary. *)
Theorem tokensOf_clean (text : jsstring) :
  Forall (fun token =>
            token <> []
            /\ Forall (fun c => isWordChar c = true /\ isWhiteSpace c = false) token
            /\ token <> lit "<PAD>" /\ token <> lit "<UNK>")
         (tokensOf text).
Proof.
  apply Forall_forall. intros token Htok.
  destruct (tokensOf_wordChars text token Htok) as [Hne Hword].
  destruct (token_not_reserved text token Htok) as [Hpad Hunk].
  split_and!; try done.
  eapply Forall_impl; [exact Hword |].
  intros c Hc. split; [done | by apply wordChar_not_whiteSpace].
Qed.

(** X2. [padSequence] returns the first [maxLength] elements of the
    sequence followed by padding: its result has [maxLength] elements,
    and padding it again changes nothing. *)
Theorem padSequence_take (sequence : list value) (maxLength : nat) (paddingValue : value) :
  padSequence sequence maxLength paddingValue
  = take maxLength (sequence ++ replicate maxLength paddingValue)
  /\ length (padSequence sequence maxLength paddingValue) = maxLength
  /\ padSequence (padSequence sequence maxLength paddingValue) maxLength paddingValue
     = padSequence sequence maxLength paddingValue.
Proof.
  split_and!.
  - destruct (Nat.le_gt_cases maxLength (length sequence)) as [Hle | Hgt].
    + rewrite padSequence_long by done. by rewrite take_app_le.
    + rewrite padSequence_short by done. rewrite take_app_ge by lia.
      rewrite take_replicate. f_equal. f_equal. lia.
  - apply padSequence_length.
  - rewrite (padSequence_long (padSequence _ _ _)) by (rewrite padSequence_length; lia).
    apply take_ge. rewrite padSequence_length. lia.
Qed.

Lemma imap_pair_fst {B} (f : nat -> B) (ws : list jsstring) :
  (imap (fun j w => (w, f j)) ws).*1 = ws.
Proof.
  revert f. induction ws as [|w ws IH]; intros f; simpl; [done |].
  f_equal. apply (IH (f ∘ S)).
Qed.

Lemma imap_pair_snd {B} (f : nat -> B) (ws : list jsstring) :
  (imap (fun j w => (w, f j)) ws).*2 = f <$> seq 0 (length ws).
Proof.
  revert f. induction ws as [|w ws IH]; intros f; simpl; [done |].
  f_equal. rewrite <- fmap_S_seq, <- list_fmap_compose. apply (IH (f ∘ S)).
Qed.

Lemma get_own_values (o : object) : NoDup o.*1 -> get o <$> o.*1 = o.*2.
Proof.
  induction o as [|[k v] o IH]; simpl; intros Hnd; [done |].
  apply NoDup_cons in Hnd as [Hk Hnd]. f_equal.
  - unfold get. simpl. by rewrite decide_True.
  - transitivity (get o <$> o.*1); [| by apply IH].
    apply list_fmap_ext. intros i x Hx.
    apply list_elem_of_lookup_2 in Hx. unfold get. simpl.
    rewrite decide_False; [done |]. by intros ->.
Qed.

(** X6. The names that [Object.keys] lists for a built vocabulary are
    pairwise distinct, and their ids are the numbers 0, 1, ...,
    size - 1, each used once; the size lies between 2 and
    [VOCAB_SIZE]. *)
Theorem vocabulary_ids_dense (emails : TrainingData) :
  let V := createVocabulary emails in
  NoDup (keys V)
  /\ get V <$> keys V ≡ₚ (fun i => VNumber (Z.of_nat i)) <$> seq 0 (sizeOf V)
  /\ 2 <= sizeOf V <= VOCAB_SIZE.
Proof.
  intros V.
  assert (Hnames : NoDup V.*1).
  { subst V. rewrite createVocabulary_shape, fmap_app, imap_pair_fst. simpl.
    assert (Hres : forall w, w ∈ topWordsOf emails ->
              w <> lit "<PAD>" /\ w <> lit "<UNK>").
    { intros w Hw. apply topWordsOf_token in Hw as [[e [_ Htok]] _].
      by apply token_not_reserved in Htok. }
    repeat apply NoDup_cons_2.
    - rewrite not_elem_of_cons. split; [discriminate |].
      intros Hin. by destruct (Hres _ Hin).
    - intros Hin. by destruct (Hres _ Hin).
    - apply topWordsOf_NoDup. }
  pose proof (topWordsOf_length emails) as Hlen.
  split_and!.
  - by rewrite keys_Permutation.
  - rewrite keys_Permutation, (get_own_values V Hnames). subst V.
    rewrite createVocabulary_size, createVocabulary_shape, fmap_app, imap_pair_snd.
    apply reflexive_eq. simpl. do 2 f_equal.
    rewrite <- !fmap_S_seq, <- !list_fmap_compose.
    apply list_fmap_ext. intros i j _. simpl. f_equal. lia.
  - subst V. rewrite createVocabulary_size. lia.
  - subst V. rewrite createVocabulary_size. unfold VOCAB_SIZE in *. lia.
Qed.

(** A counted token becomes a name of the word counts, and names stay. *)
Lemma countToken_keys (o : object) (token k : jsstring) :
  (k ∈ o.*1 -> k ∈ (countToken o token).*1)
  /\ (token <> lit "__proto__" -> token ∈ (countToken o token).*1).
Proof.
  unfold countToken, set.
  destruct (decide (token = lit "__proto__")) as [-> | Hne].
  - destruct (getOwn o (lit "__proto__")); [| done].
    rewrite setOwn_keys. split; [| done].
    destruct (decide (lit "__proto__" ∈ o.*1)); [done |].
    intros Hk. apply elem_of_app. by left.
  - rewrite setOwn_keys. destruct (decide (token ∈ o.*1)); [done |].
    split; intros; apply elem_of_app; [by left | right; by left].
Qed.

Lemma countTokens_keys (tokens : list jsstring) (o : object) (k : jsstring) :
  k <> lit "__proto__" -> k ∈ o.*1 \/ k ∈ tokens ->
  k ∈ (foldl countToken o tokens).*1.
Proof.
  revert o. induction tokens as [|t tokens IH]; intros o Hk Hin; simpl.
  - destruct Hin as [Hin | Hin]; [done | by apply elem_of_nil in Hin].
  - apply IH; [done |]. destruct Hin as [Hin | Hin].
    + left. by apply countToken_keys.
    + apply elem_of_cons in Hin as [-> | Hin]; [| by right].
      left. by apply countToken_keys.
Qed.

Lemma countEmails_keys (emails : TrainingData) (o : object) (k : jsstring) :
  k <> lit "__proto__" -> k ∈ o.*1 \/ k ∈ corpusTokens emails ->
  k ∈ (foldl countEmail o emails).*1.
Proof.
  revert o. induction emails as [|e emails IH]; intros o Hk Hin; simpl.
  - destruct Hin as [Hin | Hin]; [done | by apply elem_of_nil in Hin].
  - apply IH; [done |]. unfold corpusTokens in Hin. simpl in Hin.
    rewrite elem_of_app in Hin. destruct Hin as [Hin | [Hin | Hin]].
    + left. rewrite countEmail_unfold. apply countTokens_keys; [done | by left].
    + left. rewrite countEmail_unfold. apply countTokens_keys; [done | by right].
    + by right.
Qed.

Lemma StronglySorted_lookup_lt {A} (R : A -> A -> Prop) (l : list A) (i j : nat) (a b : A) :
  StronglySorted R l -> l !! i = Some a -> l !! j = Some b -> i < j -> R a b.
Proof.
  intros Hs. revert i j. induction Hs as [|x l Hs IH Hall]; intros i j Hi Hj Hlt.
  - by rewrite lookup_nil in Hi.
  - destruct j as [|j]; [lia |]. simpl in Hj. destruct i as [|i].
    + injection Hi as <-. apply (proj1 (Forall_forall _ _) Hall).
      by apply list_elem_of_lookup_2 in Hj.
    + simpl in Hi. apply (IH i j); [done | done | lia].
Qed.

(** X8. In a corpus free of the names of [Object.prototype] and with at
    most [VOCAB_SIZE - 2] distinct words, no word is cut off: every
    token of the corpus has its own id in the vocabulary, 2 plus its
    position among the words in descending order of frequency, so that
    every word with a smaller id occurs at least as often. *)
Theorem createVocabulary_complete (emails : TrainingData) (token : jsstring) :
  Forall (fun t => getInherited t = VUndefined) (corpusTokens emails) ->
  length (wordCountsOf emails) <= VOCAB_SIZE - 2 ->
  token ∈ corpusTokens emails ->
  exists j, topWordsOf emails !! j = Some token
            /\ getOwn (createVocabulary emails) token = Some (VNumber (Z.of_nat j + 2))
            /\ forall i other,
                 i < j -> topWordsOf emails !! i = Some other ->
                 (occurrences token (corpusTokens emails)
                  <= occurrences other (corpusTokens emails))%Z.
Proof.
  intros Hplain Hsmall Htok.
  assert (Hproto : token <> lit "__proto__").
  { intros ->. apply (proj1 (Forall_forall _ _) Hplain) in Htok. discriminate. }
  assert (Hall : topWordsOf emails = sortedWordsOf emails).
  { unfold topWordsOf. apply take_ge.
    by rewrite sortedWordsOf_Permutation, length_fmap. }
  assert (Hin : token ∈ topWordsOf emails).
  { rewrite Hall, sortedWordsOf_Permutation. apply countEmails_keys; [done | by right]. }
  pose proof (sortedWordsOf_descending emails Hplain) as Hsorted.
  rewrite <- Hall in Hsorted.
  unfold corpusTokens in Htok. apply list_elem_of_bind in Htok as [e [Htok _]].
  destruct (createVocabulary_getOwn emails (content e) token Htok)
    as [[Hnot _] | [j [Hj Hid]]]; [done |].
  exists j. split_and!; [done | done |].
  intros i other Hlt Hi.
  exact (StronglySorted_lookup_lt _ _ i j other token Hsorted Hi Hj Hlt).
Qed.

End EncoderProperties.

(** ** Training, loading and predicting *)

Section ClassifierProperties.
Context `{Runtime} `{TensorFlow}.

(** The calls of a run on a corpus that is not empty. *)
Lemma trainModel_log (e : Document) (emails : TrainingData) (log : list effect) :
  trainModel (e :: emails) log
  = match fit (sequencesOf (e :: emails)) (numericLabelsOf (e :: emails))
              (length (uniqueOf (label <$> e :: emails))) with
    | Some model =>
        (Ok tt,
         log ++ [Mkdir MODEL_DIR;
                 WriteFile VOCAB_PATH (VocabularyJson (createVocabulary (e :: emails)));
                 ModelFit;
                 ModelSave MODEL_PATH model;
                 WriteFile LABELS_PATH (LabelsJson (uniqueOf (label <$> e :: emails)))])
    | None =>
        (Thrown,
         log ++ [Mkdir MODEL_DIR;
                 WriteFile VOCAB_PATH (VocabularyJson (createVocabulary (e :: emails)));
                 ModelFit])
    end.
Proof.
  unfold trainModel, bind, emit, call. simpl length. simpl Nat.eqb. cbv iota.
  fold (sequencesOf (e :: emails)). fold (numericLabelsOf (e :: emails)).
  destruct (fit _ _ _); change (length (e :: emails) =? 0) with false; cbv beta iota;
    rewrite <- !app_assoc; reflexivity.
Qed.

(** X10. The bundle of a completed training run cannot be loaded. On
    a model directory whose bundle paths are free, a run on a corpus
    that is not empty and on which fitting returns leaves a vocabulary
    file, the label file and, under the model path, the directory that
    [model.save] made; [tf.loadLayersModel] wants a file there, so
    [load] ends the process, whatever the classifier. *)
Theorem trainModel_then_load (emails : TrainingData) (s : store) (fitted : LayersModel) :
  writable s ->
  emails <> [] ->
  fit (sequencesOf emails) (numericLabelsOf emails)
      (length (uniqueOf (label <$> emails))) = Some fitted ->
  let s' := replay (trainModel emails []).2 s in
  (exists vocabulary, s' !! VOCAB_PATH = Some (VocabularyJson vocabulary))
  /\ s' !! MODEL_PATH = Some (ModelFiles fitted)
  /\ s' !! LABELS_PATH = Some (LabelsJson (uniqueOf (label <$> emails)))
  /\ forall this, load s' this = Exited.
Proof.
  intros _ Hne Hfit s'. destruct emails as [|e emails]; [done |].
  destruct paths_distinct as [Hvm [Hvl Hml]].
  assert (Hrun : s' = <[LABELS_PATH := LabelsJson (uniqueOf (label <$> e :: emails))]>
                        (<[MODEL_PATH := ModelFiles fitted]>
                           (<[VOCAB_PATH := VocabularyJson (createVocabulary (e :: emails))]>
                              s))).
  { subst s'. by rewrite trainModel_log, Hfit. }
  assert (Hmodel : s' !! MODEL_PATH = Some (ModelFiles fitted)).
  { rewrite Hrun. by rewrite lookup_insert_ne, lookup_insert_eq by congruence. }
  split_and!; [| exact Hmodel | |].
  - rewrite Hrun. eexists.
    by rewrite !lookup_insert_ne, lookup_insert_eq by congruence.
  - rewrite Hrun. by rewrite lookup_insert_eq.
  - intros this. unfold load, loadLayersModel. by rewrite Hmodel.
Qed.

Lemma uniqueOf_from (labels seen : list jsstring) :
  NoDup seen ->
  NoDup (foldl (fun seen l => if bool_decide (l ∈ seen) then seen else seen ++ [l])
               seen labels)
  /\ forall l, l ∈ foldl (fun seen l => if bool_decide (l ∈ seen) then seen else seen ++ [l])
                         seen labels
               <-> l ∈ seen \/ l ∈ labels.
Proof.
  revert seen. induction labels as [|x labels IH]; intros seen Hnd; simpl.
  - split; [done |]. intros l. rewrite elem_of_nil. tauto.
  - destruct (bool_decide_reflect (x ∈ seen)) as [Hin | Hnot].
    + destruct (IH seen Hnd) as [Hnd' Hmem]. split; [done |].
      intros l. rewrite Hmem, elem_of_cons. split; [tauto |].
      intros [? | [-> | ?]]; tauto.
    + assert (Hnd1 : NoDup (seen ++ [x])).
      { apply NoDup_app. split_and!; [done | | apply NoDup_singleton].
        intros y Hy Hy'. apply list_elem_of_singleton in Hy'. by subst. }
      destruct (IH _ Hnd1) as [Hnd' Hmem]. split; [done |].
      intros l. rewrite Hmem, elem_of_app, list_elem_of_singleton, elem_of_cons. tauto.
Qed.

Lemma fromEntries_fresh (u : list jsstring) (i : nat) (o : object) :
  NoDup u -> (forall l, l ∈ u -> l ∉ o.*1) ->
  fromEntries i u o = o ++ imap (fun j l => (l, VNumber (Z.of_nat (i + j)))) u.
Proof.
  revert i o. induction u as [|l u IH]; intros i o Hnd Hfresh; simpl.
  - by rewrite app_nil_r.
  - apply NoDup_cons in Hnd as [Hl Hnd].
    rewrite setOwn_fresh by (apply Hfresh; left). rewrite IH; [| done |].
    + rewrite <- app_assoc. simpl. rewrite Nat.add_0_r. do 2 f_equal.
      apply imap_ext. intros j x _. simpl. do 3 f_equal. lia.
    + intros l' Hl'. rewrite fmap_app, not_elem_of_app. split; [apply Hfresh; by right |].
      simpl. rewrite list_elem_of_singleton. by intros ->.
Qed.

Lemma getOwn_entries (u : list jsstring) (i : nat) (l : jsstring) :
  l ∈ u ->
  exists j, u !! j = Some l
            /\ getOwn (imap (fun j l => (l, VNumber (Z.of_nat (i + j)))) u) l
               = Some (VNumber (Z.of_nat (i + j))).
Proof.
  revert i. induction u as [|x u IH]; intros i Hin; [by apply elem_of_nil in Hin |].
  simpl. destruct (decide (x = l)) as [-> | Hne].
  - exists 0. by rewrite Nat.add_0_r.
  - apply elem_of_cons in Hin as [-> | Hin]; [done |].
    destruct (IH (S i) Hin) as [j [Hj Hget]]. exists (S j). split; [done |].
    replace (i + S j) with (S i + j) by lia. rewrite <- Hget. f_equal.
    apply imap_ext. intros j' y _. simpl. do 3 f_equal. lia.
Qed.

(** X11. The label list that [trainModel] saves holds every label of the
    corpus once, and the numeric label it trains on for a document is
    the position of that document's label in the list, below the number
    of classes: the saved list decodes the model's classes. *)
Theorem numericLabels_index (emails : TrainingData) :
  let uniqueLabels := uniqueOf (label <$> emails) in
  NoDup uniqueLabels
  /\ (forall l, l ∈ uniqueLabels <-> l ∈ label <$> emails)
  /\ Forall2 (fun l v => exists j, v = VNumber (Z.of_nat j)
                                   /\ uniqueLabels !! j = Some l
                                   /\ j < length uniqueLabels)
             (label <$> emails) (numericLabelsOf emails).
Proof.
  intros uniqueLabels.
  destruct (uniqueOf_from (label <$> emails) [] (NoDup_nil_2)) as [Hnd Hmem].
  fold (uniqueOf (label <$> emails)) in Hnd, Hmem. fold uniqueLabels in Hnd, Hmem.
  assert (Hmem' : forall l, l ∈ uniqueLabels <-> l ∈ label <$> emails).
  { intros l. rewrite Hmem, elem_of_nil. tauto. }
  split_and!; [done | done |].
  unfold numericLabelsOf. fold uniqueLabels.
  apply Forall2_fmap_r, Forall_Forall2_diag, Forall_forall. intros l Hl.
  rewrite fromEntries_fresh; [| done | intros ? _; apply not_elem_of_nil].
  apply Hmem' in Hl. destruct (getOwn_entries uniqueLabels 0 l Hl) as [j [Hj Hget]].
  exists j. unfold get. rewrite app_nil_l, Hget. split_and!; [done | done |].
  by apply lookup_lt_Some in Hj.
Qed.

(** X13. A label that [predict] returns is an element of [this.labels],
    and it is returned after exactly one forward pass, on the encoding
    of the text under [this.vocabulary]. *)
Theorem predict_label_in_set (this : Classifier) (text l : jsstring)
    (log log' : list effect) :
  predict this text log = (Ok (PLabel l), log') ->
  exists m v ls index,
    model this = Some m /\ vocabulary this = Some v /\ labels this = Some ls
    /\ predictIndex m (textToSequence text v) = Some index
    /\ ls !! index = Some l
    /\ log' = log ++ [ModelPredict (textToSequence text v)].
Proof.
  unfold predict.
  destruct (model this) as [m|]; [| intros [=]].
  destruct (vocabulary this) as [v|]; [| intros [=]].
  destruct (labels this) as [ls|]; [| intros [=]].
  unfold bind, call, ret.
  destruct (predictIndex m (textToSequence text v)) as [index|] eqn:Hindex; [| intros [=]].
  destruct (ls !! index) as [l'|] eqn:Hl; intros [= <- <-].
  by exists m, v, ls, index.
Qed.

End ClassifierProperties.

(** ** Message texts *)

Section TextProperties.
Context `{Runtime} `{TensorFlow} `{Api}.

(** X14. A body that [parseEmailBody] finds is the decoded data of a
    text/plain part with data, at the top of the message or nested in
    its parts; messages with no such part have the empty body. *)
Theorem parseEmailBody_plain (parts : option (list MessagePart)) :
  parseEmailBody parts <> [] ->
  exists ps q data,
    parts = Some ps /\ within q ps /\ plainText q data
    /\ parseEmailBody parts = base64ToUtf8 data.
Proof.
  destruct parts as [ps|]; [| done]. simpl. intros Hbody.
  assert (Hall : Forall (fun p => forall r, parsePart p = Some r -> r <> [] ->
                    exists q data, within q [p] /\ plainText q data
                                   /\ r = base64ToUtf8 data) ps).
  { apply Forall_forall. intros p _ r. apply parsePart_found. }
  destruct (parseLoop_found ps Hall Hbody) as [q [data [Hq [Hplain Heq]]]].
  by exists ps, q, data.
Qed.

Lemma replaceWs_space_chars (inRun : bool) (s : jsstring) :
  Forall (fun c => isWhiteSpace c = true -> c = 32%N) (replaceWsFrom (lit " ") inRun s).
Proof.
  revert inRun. induction s as [|c s IH]; intros inRun; [constructor |].
  cbn [replaceWsFrom]. destruct (isWhiteSpace c) eqn:Hc.
  - destruct inRun; [apply IH |].
    change (lit " " ++ replaceWsFrom (lit " ") true s)
      with (32%N :: replaceWsFrom (lit " ") true s).
    constructor; [done | apply IH].
  - constructor; [congruence | apply IH].
Qed.

Lemma noDoubleWs_cons (a : N) (l : jsstring) :
  (forall c, head l = Some c -> isWhiteSpace a = false \/ isWhiteSpace c = false) ->
  noDoubleWs l -> noDoubleWs (a :: l).
Proof.
  intros Hhead Hl [|i] c1 c2 Hc1 Hc2; simpl in *.
  - injection Hc1 as <-. apply Hhead. by rewrite head_lookup.
  - by apply (Hl i).
Qed.

Lemma replaceWs_space_single (inRun : bool) (s : jsstring) :
  noDoubleWs (replaceWsFrom (lit " ") inRun s)
  /\ (inRun = true ->
      forall c, head (replaceWsFrom (lit " ") inRun s) = Some c -> isWhiteSpace c = false).
Proof.
  revert inRun. induction s as [|c s IH]; intros inRun.
  - split; [intros i c1 c2 Hi; by destruct i | intros _ c' [=]].
  - cbn [replaceWsFrom]. destruct (isWhiteSpace c) eqn:Hc.
    + destruct (IH true) as [Hsingle Hhead]. destruct inRun; [by split |].
      change (lit " " ++ replaceWsFrom (lit " ") true s)
        with (32%N :: replaceWsFrom (lit " ") true s).
      split; [| done]. apply noDoubleWs_cons; [| done].
      intros c' Hc'. right. by apply Hhead.
    + destruct (IH false) as [Hsingle _]. split.
      * apply noDoubleWs_cons; [| done]. intros c' _. by left.
      * intros _ c' [= <-]. done.
Qed.

Lemma trimStart_drop (s : jsstring) :
  (exists k, trimStart s = drop k s)
  /\ forall c, head (trimStart s) = Some c -> isWhiteSpace c = false.
Proof.
  induction s as [|c s [[k Hk] Hhead]].
  - split; [by exists 0 | intros c [=]].
  - cbn [trimStart]. destruct (isWhiteSpace c) eqn:Hc.
    + split; [by exists (S k) | done].
    + split; [by exists 0 | by intros c' [= <-]].
Qed.

Lemma trimEnd_take (s : jsstring) :
  (exists m, trimEnd s = take m s)
  /\ forall c, last (trimEnd s) = Some c -> isWhiteSpace c = false.
Proof.
  unfold trimEnd. destruct (trimStart_drop (reverse s)) as [[k Hk] Hhead]. split.
  - exists (length s - k). rewrite Hk, reverse_drop, reverse_involutive.
    by rewrite length_reverse.
  - intros c. rewrite last_reverse. apply Hhead.
Qed.

(** X15. The document text of the training path is normalised: its only
    white space is the space U+0020, never two in a row, and none at
    either end. *)
Theorem trainingText_normalised (subject body : jsstring) :
  let t := trainingText subject body in
  Forall (fun c => isWhiteSpace c = true -> c = 32%N) t
  /\ noDoubleWs t
  /\ (forall c, head t = Some c -> isWhiteSpace c = false)
  /\ (forall c, last t = Some c -> isWhiteSpace c = false).
Proof.
  intros t. subst t. unfold trainingText, trim, replaceWs.
  set (w := replaceWsFrom (lit " ") false (subject ++ lit " " ++ body)).
  destruct (trimStart_drop w) as [[k Hk] Hhead].
  destruct (trimEnd_take (trimStart w)) as [[m Hm] Hlast].
  pose proof (replaceWs_space_chars false (subject ++ lit " " ++ body)) as Hchars.
  destruct (replaceWs_space_single false (subject ++ lit " " ++ body)) as [Hsingle _].
  fold w in Hchars, Hsingle.
  split_and!.
  - rewrite Hm, Hk. by apply Forall_take, Forall_drop.
  - rewrite Hm, Hk. intros i c1 c2 Hc1 Hc2.
    apply lookup_take_Some in Hc1 as [Hc1 _]. apply lookup_take_Some in Hc2 as [Hc2 _].
    rewrite lookup_drop in Hc1, Hc2. apply (Hsingle (k + i) c1 c2 Hc1).
    by replace (S (k + i)) with (k + S i) by lia.
  - rewrite Hm. intros c. rewrite !head_lookup. intros Hc.
    apply lookup_take_Some in Hc as [Hc _]. apply Hhead. by rewrite head_lookup.
  - exact Hlast.
Qed.

(** X16. [getEmailContent] never rejects: it issues one [messages.get]
    and returns null, after an error line when the request was
    rejected, or a text; and a text it returns holds no white space at
    all. *)
Theorem getEmailContent_total (messageId : jsstring) (log : list effect) :
  exists content errors,
    getEmailContent messageId log
    = (Ok content, log ++ MessagesGet messageId :: errors)
    /\ Forall (fun e => isConsole e = true) errors
    /\ (content = None <-> messagesGet messageId = None \/ messagesGet messageId = Some None)
    /\ forall text, content = Some text -> Forall (fun c => isWhiteSpace c = false) text.
Proof.
  rewrite getEmailContent_cases.
  destruct (messagesGet messageId) as [[email|]|].
  - eexists _, []. split_and!; [reflexivity | constructor | |].
    + split; [discriminate | intros [[=] | [=]]].
    + intros text [= <-]. rewrite inferenceText_strips.
      apply Forall_forall. intros c Hc. by apply list_elem_of_filter in Hc as [? _].
  - exists None, []. split_and!; [reflexivity | constructor | by split; [right |] | done].
  - exists None, [ConsoleError (lit "Error fetching email " ++ messageId ++ lit ":")].
    split_and!; [reflexivity | by repeat constructor | by split; [left |] | done].
Qed.

End TextProperties.

(** ** The calls of the mail functions *)

Section CallProperties.
Context `{Runtime} `{TensorFlow} `{Api}.

Lemma adds_ret {A} (P : effect -> Prop) (a : A) : adds P (ret a).
Proof. intros log. exists []. by rewrite app_nil_r. Qed.

Lemma adds_call {A} (P : effect -> Prop) (e : effect) (answer : option A) :
  P e -> adds P (call e answer).
Proof.
  intros He log. exists [e]. unfold call. split; [by destruct answer | by constructor].
Qed.

Lemma adds_bind {A B} (P : effect -> Prop) (m : io A) (k : A -> io B) :
  adds P m -> (forall a, adds P (k a)) -> adds P (bind m k).
Proof.
  intros Hm Hk log. destruct (Hm log) as [d1 [Hd1 HP1]]. unfold bind.
  destruct (m log) as [[a| |] log1]; simpl in Hd1; subst log1; try by exists d1.
  destruct (Hk a (log ++ d1)) as [d2 [Hd2 HP2]]. exists (d1 ++ d2).
  split; [by rewrite Hd2, app_assoc | by apply Forall_app].
Qed.

Lemma adds_impl {A} (P Q : effect -> Prop) (m : io A) :
  (forall e, P e -> Q e) -> adds P m -> adds Q m.
Proof.
  intros HPQ Hm log. destruct (Hm log) as [d [Hd HP]]. exists d.
  split; [done | by eapply Forall_impl].
Qed.

Lemma fetchChunk_adds (chunk : list Message) : adds isGetRequest (fetchChunk chunk).
Proof.
  intros log. exists (chunk ≫= getCall). unfold fetchChunk.
  split; [by destruct (mapM getAnswer chunk) |].
  apply Forall_forall. intros e He. apply list_elem_of_bind in He as [m [He _]].
  unfold getCall in He. destruct (present (messageId m)) as [id|].
  - apply list_elem_of_singleton in He as ->. by exists id.
  - by apply elem_of_nil in He.
Qed.

Lemma processChunks_adds (l : jsstring) (chunks : list (list Message))
    (td : list Document) :
  adds isGetRequest (processChunks l chunks td).
Proof.
  revert td. induction chunks as [|chunk chunks IH]; intros td; simpl.
  - apply adds_ret.
  - apply adds_bind; [apply fetchChunk_adds | intros emails; apply IH].
Qed.

Lemma fetchPages_adds (fuel : nat) (q l : jsstring) (maxResults : nat)
    (td : list Document) (pageToken : option jsstring) :
  adds (fun e => isListRequest q maxResults e \/ isGetRequest e)
       (fetchPages fuel q l maxResults td pageToken).
Proof.
  revert td pageToken. induction fuel as [|fuel IH]; intros td pageToken.
  - intros log. exists []. by rewrite app_nil_r.
  - rewrite fetchPages_S. destruct (Nat.ltb_spec (length td) maxResults) as [Hlt | Hge];
      [| apply adds_ret].
    apply adds_bind.
    + apply adds_call. left. eexists _, _. split; [reflexivity | lia].
    + intros listResponse. destruct (messages listResponse) as [[|m msgs]|];
        try apply adds_ret.
      apply adds_bind.
      * eapply adds_impl; [| apply processChunks_adds]. intros e He. by right.
      * intros td'. destruct (present (nextPageToken listResponse)); [apply IH | apply adds_ret].
Qed.

(** X18. [getEmailsForLabel] only reads the mailbox: besides the log it
    was given, its calls are [messages.list] requests, each under the
    one query built from the label and for between 1 and 50 messages
    and no more than [maxResults], and [messages.get] requests. *)
Theorem getEmailsForLabel_requests (fuel : nat) (labelOrCategory : jsstring)
    (maxResults : nat) (log : list effect) :
  exists requests,
    (getEmailsForLabel fuel labelOrCategory maxResults log).2 = log ++ requests
    /\ Forall (fun e => isListRequest (queryFor labelOrCategory) maxResults e
                        \/ isGetRequest e) requests
    /\ (maxResults = 0 -> requests = []).
Proof.
  unfold getEmailsForLabel.
  destruct (fetchPages_adds fuel (queryFor labelOrCategory) labelOrCategory maxResults
              [] None log) as [requests [Hlog Hall]].
  exists requests. split_and!; [done | done |].
  intros ->. apply (app_inv_head log). rewrite <- Hlog, app_nil_r.
  destruct fuel; reflexivity.
Qed.

(** X19. [applyLabelToEmail] never rejects. It lists the labels and
    then modifies the message at most once, with the id of a label that
    carries the requested name; when no label carries that name, or the
    listing is rejected, it only writes a line on the console. *)
Theorem applyLabelToEmail_safe (messageId labelName : jsstring) (log : list effect) :
  exists calls,
    applyLabelToEmail messageId labelName log = (Ok tt, log ++ LabelsList :: calls)
    /\ length (List.filter isModify calls) <= 1
    /\ (forall e, e ∈ calls -> isModify e = true ->
          exists labels l id,
            labelsList = Some (Some labels) /\ l ∈ labels
            /\ Gmail.labelName l = Some labelName /\ labelId l = Some id
            /\ e = MessagesModify messageId id)
    /\ ((forall labels l, labelsList = Some (Some labels) -> l ∈ labels ->
           Gmail.labelName l <> Some labelName) ->
        Forall (fun e => isConsole e = true) calls).
Proof.
  unfold applyLabelToEmail, tryCatch, bind, call, emit.
  destruct labelsList as [[labels|]|] eqn:Hlist; simpl.
  - destruct (List.find _ labels) as [[[[|c id]|] name]|] eqn:Hfind.
    + eexists [_]. rewrite <- app_assoc. split_and!; [reflexivity | simpl; lia | |].
      * intros e He. apply list_elem_of_singleton in He as ->. discriminate.
      * intros _. by repeat constructor.
    + apply find_some in Hfind as [Hin Hname]. apply bool_decide_eq_true in Hname.
      simpl in Hname. apply list_elem_of_In in Hin.
      destruct (messagesModify messageId (c :: id)) as [[]|].
      * eexists [_]. rewrite <- app_assoc. split_and!; [reflexivity | simpl; lia | |].
        -- intros e He _. apply list_elem_of_singleton in He as ->.
           by eexists labels, _, (c :: id).
        -- intros Hnone. by destruct (Hnone labels _ eq_refl Hin).
      * eexists [_; _]. rewrite <- !app_assoc. split_and!; [reflexivity | simpl; lia | |].
        -- intros e He Hmod. apply elem_of_cons in He as [-> | He].
           ++ by eexists labels, _, (c :: id).
           ++ apply list_elem_of_singleton in He as ->. discriminate.
        -- intros Hnone. by destruct (Hnone labels _ eq_refl Hin).
    + eexists [_]. rewrite <- app_assoc. split_and!; [reflexivity | simpl; lia | |].
      * intros e He. apply list_elem_of_singleton in He as ->. discriminate.
      * intros _. by repeat constructor.
    + eexists [_]. rewrite <- app_assoc. split_and!; [reflexivity | simpl; lia | |].
      * intros e He. apply list_elem_of_singleton in He as ->. discriminate.
      * intros _. by repeat constructor.
  - eexists [_]. rewrite <- app_assoc. split_and!; [reflexivity | simpl; lia | |].
    + intros e He. apply list_elem_of_singleton in He as ->. discriminate.
    + intros _. by repeat constructor.
  - eexists [_]. rewrite <- app_assoc. split_and!; [reflexivity | simpl; lia | |].
    + intros e He. apply list_elem_of_singleton in He as ->. discriminate.
    + intros _. by repeat constructor.
Qed.

End CallProperties.

(** ** The webhook, event by event *)

Section WebhookProperties.
Context `{Runtime} `{TensorFlow} `{Api}.

Lemma predict_run (classifier : Classifier) (text : jsstring) (log : list effect) :
  exists res calls,
    predict classifier text log = (res, log ++ calls)
    /\ List.filter isModify calls = []
    /\ ((labels classifier = None /\ res = Ok PNull /\ List.filter isPredict calls = [])
        \/ (labels classifier <> None
            /\ length (List.filter isPredict calls) <= 1
            /\ (res = Thrown \/ res = Ok PNull \/ res = Ok PUndefined
                \/ exists ls l, labels classifier = Some ls /\ l ∈ ls
                                /\ res = Ok (PLabel l)
                                /\ length (List.filter isPredict calls) = 1))).
Proof.
  unfold predict.
  destruct (model classifier) as [m|], (vocabulary classifier) as [v|],
           (labels classifier) as [ls|];
    unfold bind, call, emit, ret;
    try (eexists _, [_]; split; [reflexivity |]; split; [done |];
         first [ left; by split_and!
               | right; split_and!; [done | simpl; lia | tauto] ]).
  destruct (predictIndex m (textToSequence text v)) as [index|].
  - destruct (ls !! index) as [l|] eqn:Hl.
    + eexists _, [_]. split; [reflexivity |]. split; [done |]. right.
      split_and!; [done | simpl; lia |]. do 3 right. exists ls, l.
      split_and!; [done | by eapply list_elem_of_lookup_2 | done | done].
    + eexists _, [_]. split; [reflexivity |]. split; [done |]. right.
      split_and!; [done | simpl; lia | tauto].
  - eexists _, [_]. split; [reflexivity |]. split; [done |]. right.
    split_and!; [done | simpl; lia | tauto].
Qed.

Lemma applyLabelToEmail_run (messageId labelName : jsstring) (log : list effect) :
  exists calls,
    applyLabelToEmail messageId labelName log = (Ok tt, log ++ LabelsList :: calls)
    /\ length (List.filter isModify calls) <= 1
    /\ List.filter isPredict calls = [].
Proof.
  unfold applyLabelToEmail, tryCatch, bind, call, emit.
  destruct labelsList as [[labels|]|]; simpl.
  - destruct (List.find _ labels) as [[[[|c id]|] name]|];
      try (eexists [_]; rewrite <- app_assoc; split_and!; [reflexivity | simpl; lia | done]).
    destruct (messagesModify messageId (c :: id)) as [[]|].
    + eexists [_]. rewrite <- app_assoc. split_and!; [reflexivity | simpl; lia | done].
    + eexists [_; _]. rewrite <- !app_assoc. split_and!; [reflexivity | simpl; lia | done].
  - eexists [_]. rewrite <- app_assoc. split_and!; [reflexivity | simpl; lia | done].
  - eexists [_]. rewrite <- app_assoc. split_and!; [reflexivity | simpl; lia | done].
Qed.

(** A run that ends without naming a label, after calls among which
    there is at most one forward pass and no mailbox change. *)
Lemma handled_plain (classifier : Classifier) (log calls : list effect) (r : response) :
  status r = 200 \/ (status r = 500 /\ success r = false /\ predictedLabel r = None) ->
  predictedLabel r = None ->
  length (List.filter isPredict calls) <= 1 ->
  List.filter isModify calls = [] ->
  (labels classifier = None -> List.filter isPredict calls = []) ->
  handled classifier log (Ok r, log ++ calls).
Proof.
  intros Hstatus Hnone Hp Hm Hl. exists r, calls.
  split_and!; [done | done | done | rewrite Hm; simpl; lia | by rewrite Hnone |].
  intros Hlabels. by split_and!; [apply Hl | |].
Qed.

(** What every run of the handler comes to. *)
Lemma webhook_handled (classifier : Classifier) (request : option PushEvent)
    (log : list effect) :
  handled classifier log (webhook classifier request log).
Proof.
  unfold webhook, tryCatch, bind, call, ret, throw, emit.
  destruct request as [event|];
    [| by apply handled_plain; [right | | simpl; lia | |]].
  destruct (historyList (historyId event)) as [historyResponse|];
    [| rewrite <- app_assoc; by apply handled_plain; [right | | simpl; lia | |]].
  destruct (firstAdded historyResponse) as [[|first rest]|];
    try (by apply handled_plain; [left | | simpl; lia | |]).
  destruct (present (Gmail.message first ≫= Gmail.messageId)) as [id|];
    [| by apply handled_plain; [left | | simpl; lia | |]].
  rewrite getEmailContent_cases.
  destruct (messagesGet id) as [[email|]|];
    [| rewrite <- app_assoc; by apply handled_plain; [left | | simpl; lia | |]
     | rewrite <- app_assoc; by apply handled_plain; [left | | simpl; lia | |]].
  destruct (inferenceText (emailSubject email) (emailBody email)) as [|ch text];
    [rewrite <- app_assoc; by apply handled_plain; [left | | simpl; lia | |] |].
  change (present (Some (ch :: text))) with (Some (ch :: text)). cbv beta iota.
  destruct (predict_run classifier (ch :: text)
              ((log ++ [HistoryList (historyId event)]) ++ [MessagesGet id]))
    as [res [pcalls [Hpredict [Hpm Hcases]]]].
  rewrite Hpredict.
  assert (Hplain : forall (r : response) (extra : list effect),
            status r = 200 \/ (status r = 500 /\ success r = false /\ predictedLabel r = None) ->
            predictedLabel r = None ->
            List.filter isPredict extra = [] -> List.filter isModify extra = [] ->
            handled classifier log
              (Ok r, (((log ++ [HistoryList (historyId event)]) ++ [MessagesGet id])
                      ++ pcalls) ++ extra)).
  { intros r extra Hstatus Hnone Hp Hm. rewrite <- !app_assoc.
    apply handled_plain; [done | done | | |].
    - cbn [app List.filter isPredict]. rewrite List.filter_app, Hp, app_nil_r.
      destruct Hcases as [[_ [_ ->]] | [_ [Hle _]]]; [simpl; lia | done].
    - cbn [app List.filter isModify]. by rewrite List.filter_app, Hpm, Hm.
    - intros Hl. cbn [app List.filter isPredict]. rewrite List.filter_app, Hp, app_nil_r.
      by destruct Hcases as [[_ [_ ->]] | [Hsome _]]. }
  assert (Hplain0 : forall r : response,
            status r = 200 \/ (status r = 500 /\ success r = false /\ predictedLabel r = None) ->
            predictedLabel r = None ->
            handled classifier log
              (Ok r, ((log ++ [HistoryList (historyId event)]) ++ [MessagesGet id])
                     ++ pcalls)).
  { intros r Hstatus Hnone. rewrite <- (app_nil_r (_ ++ pcalls)). by apply Hplain. }
  destruct Hcases
    as [[Hl [-> Hpp]] | [Hsome [Hle [-> | [-> | [-> | [ls [l [Hls [Hin [-> Hone]]]]]]]]]]].
  - by apply Hplain0; [left |].
  - by apply Hplain; [right | | |].
  - by apply Hplain0; [left |].
  - by apply Hplain0; [left |].
  - destruct l as [|c l]; [by apply Hplain0; [left |] |].
    destruct (applyLabelToEmail_run id (c :: l)
                (((log ++ [HistoryList (historyId event)]) ++ [MessagesGet id]) ++ pcalls))
      as [acalls [Happly [Ham Hap]]].
    rewrite Happly.
    exists (json true None (Some (c :: l))),
           (HistoryList (historyId event) :: MessagesGet id :: pcalls
            ++ LabelsList :: acalls).
    split; [by rewrite <- !app_assoc |].
    cbn [List.filter isPredict isModify]. rewrite !List.filter_app.
    cbn [List.filter isPredict isModify]. rewrite Hpm, Hap, app_nil_r.
    split_and!; [by left | done | | | by rewrite Hls].
    + rewrite Hone. exact Ham.
    + intros l' [= <-]. split_and!; [done | done | by exists ls |].
      do 2 right. apply elem_of_app. right. left.
Qed.

(** X20. The handler never rejects and is never cut off: whatever the
    request, the classifier and the answers of the provider, it returns
    a response, with status 200, or with status 500 and
    [success: false], and it keeps the log it was given. *)
Theorem webhook_never_throws (classifier : Classifier) (request : option PushEvent)
    (log : list effect) :
  exists r calls,
    webhook classifier request log = (Ok r, log ++ calls)
    /\ (status r = 200 \/ (status r = 500 /\ success r = false))
    /\ (request = None -> status r = 500 /\ Forall (fun e => isConsole e = true) calls).
Proof.
  destruct (webhook_handled classifier request log)
    as [r [calls [Hrun [Hstatus _]]]].
  exists r, calls. split_and!; [done | tauto |].
  intros ->. unfold webhook, tryCatch, bind, throw, emit, ret in Hrun.
  injection Hrun as <- Hcalls. apply app_inv_head in Hcalls as <-.
  split; [done | by repeat constructor].
Qed.

(** X21. One event leads to at most one forward pass of the model and
    at most one change of the mailbox, and to a change only after a
    forward pass. *)
Theorem webhook_at_most_one (classifier : Classifier) (request : option PushEvent)
    (log : list effect) :
  exists calls,
    (webhook classifier request log).2 = log ++ calls
    /\ length (List.filter isPredict calls) <= 1
    /\ length (List.filter isModify calls) <= 1
    /\ (List.filter isPredict calls = [] -> List.filter isModify calls = []).
Proof.
  destruct (webhook_handled classifier request log)
    as [r [calls [Hrun [_ [Hp [Hm _]]]]]].
  exists calls. rewrite Hrun. split_and!; [done | done | lia |].
  intros Hnone. rewrite Hnone in Hm. simpl in Hm.
  destruct (List.filter isModify calls); [done | simpl in Hm; lia].
Qed.

(** X22. A response that carries a predicted label reports success, and
    the label is an element of the classifier's label list. *)
Theorem webhook_label_from_set (classifier : Classifier) (request : option PushEvent)
    (log log' : list effect) (r : response) (l : jsstring) :
  webhook classifier request log = (Ok r, log') ->
  predictedLabel r = Some l ->
  success r = true /\ status r = 200
  /\ exists ls, labels classifier = Some ls /\ l ∈ ls.
Proof.
  intros Hrun Hlabel.
  destruct (webhook_handled classifier request log)
    as [r' [calls [Hrun' [_ [_ [_ [Hfrom _]]]]]]].
  rewrite Hrun in Hrun'. injection Hrun' as <- _.
  destruct (Hfrom l Hlabel) as [Hs [Hst [Hls _]]]. by split_and!.
Qed.

(** X23. With the classifier that [load] returns for a new
    [Classifier], no event leads to a forward pass or to a change of the
    mailbox, and no response carries a predicted label. *)
Theorem webhook_after_load_never_labels (s : store) (classifier : Classifier)
    (request : option PushEvent) (log : list effect) :
  load s newClassifier = Loaded classifier ->
  exists r calls,
    webhook classifier request log = (Ok r, log ++ calls)
    /\ List.filter isPredict calls = []
    /\ List.filter isModify calls = []
    /\ predictedLabel r = None.
Proof.
  intros Hload. apply load_keeps_labels in Hload. simpl in Hload.
  destruct (webhook_handled classifier request log)
    as [r [calls [Hrun [_ [_ [_ [_ Hnone]]]]]]].
  destruct (Hnone Hload) as [Hp [Hm Hl]]. by exists r, calls.
Qed.

End WebhookProperties.

(** ** The training script *)

Section TrainProperties.
Context `{Runtime} `{TensorFlow} `{Api}.

Lemma fetchLabels_adds (fuel : nat) (labels : list jsstring) (allEmails : list Document) :
  adds (fun e => isFileCall e = false) (fetchLabels fuel labels allEmails).
Proof.
  revert allEmails. induction labels as [|labelName rest IH]; intros allEmails; simpl.
  - apply adds_ret.
  - apply adds_bind; [| intros emails; apply IH].
    eapply adds_impl; [| apply fetchPages_adds].
    intros e [[n [tok [-> _]]] | [id ->]]; reflexivity.
Qed.

Lemma replay_reads (calls : list effect) (s : store) :
  Forall (fun e => isFileCall e = false) calls -> replay calls s = s.
Proof.
  revert s. induction calls as [|e calls IH]; intros s Hall; [done |].
  inversion Hall as [|? ? He Hrest]; subst. cbn [replay foldl].
  rewrite <- (IH s Hrest) at 2. unfold replay. f_equal.
  by destruct e.
Qed.

(** X24. [main] touches the model directory only when the fetches have
    returned at least one document. When they return none it writes the
    two error lines and returns, and when a fetch is rejected it stops
    there; in both cases the model directory is as it was. *)
Theorem main_needs_data (fuel : nat) (log log1 : list effect) (s : store)
    (fetched : result (list Document)) :
  fetchLabels fuel LABELS_TO_TRAIN [] log = (fetched, log1) ->
  (forall d docs, fetched <> Ok (d :: docs)) ->
  replay (main fuel log).2 s = replay log s
  /\ (fetched = Ok [] ->
      main fuel log
      = (Ok tt,
         log1 ++ [ConsoleError ([10%N] ++ lit "Error: No training data found. Make sure the labels in `config.ts` exist and contain emails.");
                  ConsoleError (lit "Exiting training process.")])).
Proof.
  intros Hfetch Hnone.
  destruct (fetchLabels_adds fuel LABELS_TO_TRAIN [] log) as [calls [Hcalls Hreads]].
  rewrite Hfetch in Hcalls. simpl in Hcalls. subst log1.
  assert (Hsame : replay (log ++ calls) s = replay log s)
    by (rewrite replay_app; by apply replay_reads).
  unfold main, bind. rewrite Hfetch.
  destruct fetched as [[|d docs]| |]; [| by destruct (Hnone d docs) | done | done].
  split; [| intros _; unfold emit; simpl; by rewrite <- app_assoc].
  unfold emit. simpl. rewrite !replay_app, (replay_reads calls) by done. reflexivity.
Qed.

Section Contract.
Hypothesis listed_at_most :
  forall q n pageToken listResponse msgs,
    messagesList q n pageToken = Some listResponse ->
    messages listResponse = Some msgs ->
    length msgs <= n.

Lemma fetchLabels_Ok (fuel : nat) (labels : list jsstring) (allEmails docs : list Document)
    log log' :
  fetchLabels fuel labels allEmails log = (Ok docs, log') ->
  exists new,
    docs = allEmails ++ new
    /\ length new <= emailsPerLabel * length labels
    /\ Forall (fun d => label d ∈ labels /\ fromMailbox (label d) d) new.
Proof.
  revert allEmails log. induction labels as [|labelName rest IH]; intros allEmails log Hrun;
    simpl in Hrun.
  - injection Hrun as <- _. exists []. by rewrite app_nil_r.
  - apply bind_Ok in Hrun as [emails [log1 [Hfetch Hrest]]].
    apply (fetchPages_Ok listed_at_most) in Hfetch as [Hlen Hfrom];
      [| simpl; lia | constructor].
    destruct (IH _ _ Hrest) as [new [-> [Hlen' Hnew]]].
    exists (emails ++ new). split; [by rewrite app_assoc |]. split.
    + rewrite length_app. simpl length. lia.
    + apply Forall_app. split.
      * eapply Forall_impl; [exact Hfrom |]. intros d Hd.
        assert (Hl : label d = labelName) by apply Hd. rewrite Hl. split; [left | done].
      * eapply Forall_impl; [exact Hnew |]. intros d [Hin Hd]. split; [by right | done].
Qed.

(** X25. Provided the provider lists at most the number of messages it
    is asked for, the corpus that [main] gathers holds at most 500
    documents for each of the three labels of [LABELS_TO_TRAIN], each
    document labelled with one of the three and built from a fetched
    message with a non-empty plain-text part. *)
Theorem main_corpus (fuel : nat) (log log' : list effect) (docs : list Document) :
  fetchLabels fuel LABELS_TO_TRAIN [] log = (Ok docs, log') ->
  length docs <= 1500
  /\ Forall (fun d => label d ∈ LABELS_TO_TRAIN /\ fromMailbox (label d) d) docs.
Proof.
  intros Hrun. apply fetchLabels_Ok in Hrun as [new [-> [Hlen Hnew]]].
  simpl app. split; [| done].
  unfold emailsPerLabel, LABELS_TO_TRAIN in Hlen. simpl length in Hlen. lia.
Qed.

End Contract.

End TrainProperties.

(** ** From the fetched message to the model's input *)

Section InferenceProperties.
Context `{Runtime} `{TensorFlow} `{Api}.

Lemma splitWsFrom_word (cur s : jsstring) :
  Forall (fun c => isWhiteSpace c = false) s -> splitWsFrom cur false s = [cur ++ s].
Proof.
  revert cur. induction s as [|c s IH]; intros cur Hs; simpl.
  - by rewrite app_nil_r.
  - inversion Hs as [|? ? Hc Hrest]; subst. rewrite Hc, IH by done.
    by rewrite <- app_assoc.
Qed.

Lemma tokensOf_word (text : jsstring) :
  Forall (fun c => isWhiteSpace c = false) (toLowerCase text) ->
  tokensOf text = [] \/ exists token, tokensOf text = [token].
Proof.
  intros Hlow. unfold tokensOf, splitWs. rewrite splitWsFrom_word.
  - simpl. destruct (0 <? length (stripNonWord (toLowerCase text))); eauto.
  - apply Forall_forall. intros c Hc. unfold stripNonWord in Hc.
    apply list_elem_of_filter in Hc as [_ Hc].
    by apply (proj1 (Forall_forall _ _) Hlow).
Qed.

(** X26. The text that [getEmailContent] returns holds no white space,
    so, with a [toLowerCase] that brings none in, it is one token at
    most: of the 100 elements that [textToSequence] makes of it for the
    model, all but the first are padding. *)
Theorem inference_single_token (messageId text : jsstring) (V : Vocabulary)
    (log log' : list effect) :
  (forall t, Forall (fun c => isWhiteSpace c = false) t ->
             Forall (fun c => isWhiteSpace c = false) (toLowerCase t)) ->
  getEmailContent messageId log = (Ok (Some text), log') ->
  length (tokensOf text) <= 1
  /\ exists v, textToSequence text V = v :: replicate 99 (VNumber 0).
Proof.
  intros Hlower Hrun. rewrite getEmailContent_cases in Hrun.
  assert (Htext : Forall (fun c => isWhiteSpace c = false) text).
  { destruct (messagesGet messageId) as [[email|]|]; try discriminate.
    injection Hrun as <- _. rewrite inferenceText_strips.
    apply Forall_forall. intros c Hc. by apply list_elem_of_filter in Hc as [? _]. }
  rewrite textToSequence_unfold. unfold sequenceOf.
  destruct (tokensOf_word text (Hlower _ Htext)) as [-> | [token ->]].
  - split; [simpl; lia |]. exists (VNumber 0). reflexivity.
  - split; [simpl; lia |]. eexists. reflexivity.
Qed.

Lemma applyLabelToEmail_cases (messageId labelName : jsstring) (log : list effect) :
  applyLabelToEmail messageId labelName log
  = (Ok tt,
     log ++ LabelsList ::
       match labelsList with
       | None => [ConsoleError (lit "Error applying label to " ++ messageId ++ lit ":")]
       | Some labels =>
           match labels ≫= List.find (fun l => bool_decide (Gmail.labelName l = Some labelName)) with
           | Some {| labelId := Some (c :: id) |} =>
               MessagesModify messageId (c :: id) ::
                 match messagesModify messageId (c :: id) with
                 | Some _ => []
                 | None => [ConsoleError (lit "Error applying label to "
                                          ++ messageId ++ lit ":")]
                 end
           | _ => [ConsoleWarn (lit "Label " ++ [34%N] ++ labelName ++ [34%N]
                                ++ lit " not found. Cannot apply.")]
           end
       end).
Proof.
  unfold applyLabelToEmail, tryCatch, bind, call, emit.
  destruct labelsList as [labels|]; [| by rewrite <- app_assoc].
  destruct (labels ≫= List.find _) as [[[[|k lid]|] name]|];
    try (by rewrite <- app_assoc).
  destruct (messagesModify messageId (k :: lid)) as [[]|]; by rewrite <- !app_assoc.
Qed.

(** X27. Once [predict] has returned a label, the response names it and
    reports success, whatever becomes of [applyLabelToEmail]: when the
    listing of the labels is rejected, or no label of that name exists,
    or the modification is rejected, the message stays unlabelled and
    the response is the same. *)
Theorem webhook_reports_prediction (classifier : Classifier) (event : PushEvent)
    (historyResponse : HistoryResponse) (first : MessageAdded) (rest : list MessageAdded)
    (id : jsstring) (content : option jsstring) (text : jsstring) (c : N) (l : jsstring)
    (log log1 log2 : list effect) :
  historyList (historyId event) = Some historyResponse ->
  firstAdded historyResponse = Some (first :: rest) ->
  present (Gmail.message first ≫= Gmail.messageId) = Some id ->
  getEmailContent id (log ++ [HistoryList (historyId event)]) = (Ok content, log1) ->
  present content = Some text ->
  predict classifier text log1 = (Ok (PLabel (c :: l)), log2) ->
  exists calls,
    webhook classifier (Some event) log
    = (Ok (json true None (Some (c :: l))), log2 ++ LabelsList :: calls)
    /\ (labelsList = None ->
        calls = [ConsoleError (lit "Error applying label to " ++ id ++ lit ":")])
    /\ ((forall labels label, labelsList = Some (Some labels) -> label ∈ labels ->
           Gmail.labelName label <> Some (c :: l)) ->
        Forall (fun e => isConsole e = true) calls)
    /\ (forall labelId, MessagesModify id labelId ∈ calls ->
        messagesModify id labelId = None ->
        calls = [MessagesModify id labelId;
                 ConsoleError (lit "Error applying label to " ++ id ++ lit ":")]).
Proof.
  intros Hhistory Hfirst Hid Hcontent Htext Hpredict.
  pose proof (applyLabelToEmail_cases id (c :: l) log2) as Hrun.
  eexists. split.
  { unfold webhook, tryCatch, bind at 1 2, ret at 1, call at 1.
    rewrite Hhistory. cbv beta iota. rewrite Hfirst, Hid.
    unfold bind at 1. rewrite Hcontent, Htext.
    unfold bind at 1. rewrite Hpredict.
    unfold bind at 1. rewrite Hrun. reflexivity. }
  clear Hrun. split_and!.
  - by intros ->.
  - intros Hnone. destruct labelsList as [labels|]; [| by repeat constructor].
    destruct (labels ≫= List.find _) as [[[[|k lid]|] name]|] eqn:Hfind;
      try (by repeat constructor).
    destruct labels as [labels|]; [| discriminate]. simpl in Hfind.
    apply List.find_some in Hfind as [Hin Hname].
    apply bool_decide_eq_true in Hname.
    destruct (Hnone labels _ eq_refl (proj2 (list_elem_of_In _ _) Hin) Hname).
  - intros labelId Hin Hreject. destruct labelsList as [labels|].
    + destruct (labels ≫= List.find _) as [[[[|k lid]|] name]|].
      * apply list_elem_of_singleton in Hin. discriminate.
      * destruct (decide (labelId = k :: lid)) as [-> | Hne].
        -- by rewrite Hreject.
        -- apply elem_of_cons in Hin as [[= Heq] | Hin]; [done |].
           destruct (messagesModify id (k :: lid)).
           ++ by apply elem_of_nil in Hin.
           ++ apply list_elem_of_singleton in Hin. discriminate.
      * apply list_elem_of_singleton in Hin. discriminate.
      * apply list_elem_of_singleton in Hin. discriminate.
    + apply list_elem_of_singleton in Hin. discriminate.
Qed.

End InferenceProperties.

(** ** The further properties on concrete inputs *)

Section FurtherInstances.
Import Examples.

(** X3 on a text with a word of the vocabulary and one outside it. *)
Lemma textToSequence_ids_witness :
  Forall (isIdBelow (sizeOf (@createVocabulary asciiRuntime [doc "sale buy now" "Promotions"])))
         (@textToSequence asciiRuntime (lit "Buy it now!")
            (@createVocabulary asciiRuntime [doc "sale buy now" "Promotions"])).
Proof.
  apply (@textToSequence_ids asciiRuntime [doc "sale buy now" "Promotions"]
           (lit "Buy it now!")).
  change (@tokensOf asciiRuntime (lit "Buy it now!")) with [lit "buy"; lit "it"; lit "now"].
  repeat apply Forall_cons_2; [left | right | left | apply Forall_nil_2].
  - apply (list_elem_of_lookup_2 _ 1). vm_compute. reflexivity.
  - reflexivity.
  - apply (list_elem_of_lookup_2 _ 2). vm_compute. reflexivity.
Defined.

(** X5 on the word "it", which the vocabulary of "sale buy now" lacks. *)
Lemma encode_token_oov_witness :
  or (get (@createVocabulary asciiRuntime [doc "sale buy now" "Promotions"]) (lit "it"))
     (get (@createVocabulary asciiRuntime [doc "sale buy now" "Promotions"]) (lit "<UNK>"))
  = VNumber 1.
Proof.
  apply (@encode_token_oov asciiRuntime [doc "sale buy now" "Promotions"]
           (lit "Buy it now!") (lit "it")).
  - apply (list_elem_of_lookup_2 _ 1). vm_compute. reflexivity.
  - vm_compute. reflexivity.
  - reflexivity.
Defined.

(** X7 on a corpus in which "now" occurs three times and "buy" twice. *)
Lemma topWordsOf_descending_witness :
  StronglySorted
    (fun a b => (occurrences b (@corpusTokens asciiRuntime
                                  [doc "sale now buy now" "Promotions"; doc "Buy now" "Promotions"])
                 <= occurrences a (@corpusTokens asciiRuntime
                                  [doc "sale now buy now" "Promotions"; doc "Buy now" "Promotions"]))%Z)
    (@topWordsOf asciiRuntime [doc "sale now buy now" "Promotions"; doc "Buy now" "Promotions"]).
Proof.
  apply (@topWordsOf_descending asciiRuntime
           [doc "sale now buy now" "Promotions"; doc "Buy now" "Promotions"]).
  vm_compute. repeat constructor.
Defined.

(** X8 on the word "buy" of a corpus of three words. *)
Lemma createVocabulary_complete_witness :
  exists j, @topWordsOf asciiRuntime [doc "sale now buy now" "Promotions"; doc "Buy now" "Promotions"]
              !! j = Some (lit "buy")
            /\ getOwn (@createVocabulary asciiRuntime
                         [doc "sale now buy now" "Promotions"; doc "Buy now" "Promotions"])
                      (lit "buy")
               = Some (VNumber (Z.of_nat j + 2))
            /\ forall i other,
                 i < j ->
                 @topWordsOf asciiRuntime
                   [doc "sale now buy now" "Promotions"; doc "Buy now" "Promotions"] !! i
                 = Some other ->
                 (occurrences (lit "buy")
                    (@corpusTokens asciiRuntime
                       [doc "sale now buy now" "Promotions"; doc "Buy now" "Promotions"])
                  <= occurrences other
                       (@corpusTokens asciiRuntime
                          [doc "sale now buy now" "Promotions"; doc "Buy now" "Promotions"]))%Z.
Proof.
  apply (@createVocabulary_complete asciiRuntime
           [doc "sale now buy now" "Promotions"; doc "Buy now" "Promotions"] (lit "buy")).
  - vm_compute. repeat constructor.
  - vm_compute. lia.
  - apply (list_elem_of_lookup_2 _ 2). vm_compute. reflexivity.
Defined.

(** X10 on a corpus of two documents and an empty model directory. *)
Lemma trainModel_then_load_witness :
  let emails := [doc "hello world" "A"; doc "bye" "B"] in
  let s' := replay (@trainModel asciiRuntime constantTf emails []).2
                   (∅ : gmap string (@file constantTf)) in
  (exists vocabulary, s' !! VOCAB_PATH = Some (VocabularyJson vocabulary))
  /\ s' !! MODEL_PATH = Some (@ModelFiles constantTf 2)
  /\ s' !! LABELS_PATH = Some (LabelsJson (uniqueOf (label <$> emails)))
  /\ forall this, @load constantTf s' this = Exited.
Proof.
  intros emails.
  apply (@trainModel_then_load asciiRuntime constantTf emails ∅
           (2 : @LayersModel constantTf)).
  - split_and!; [reflexivity | intros m; by rewrite lookup_empty
                 | intros m; by rewrite lookup_empty].
  - discriminate.
  - reflexivity.
Defined.

(** X13 on a classifier with one label. *)
Lemma predict_label_in_set_witness :
  let V := @createVocabulary asciiRuntime [doc "sale buy now" "Promotions"] in
  let this : @Classifier.Classifier constantTf :=
    {| model := Some (1 : @LayersModel constantTf);
       vocabulary := Some V;
       labels := Some [lit "Promotions"] |} in
  exists m v ls index,
    model this = Some m /\ vocabulary this = Some v /\ labels this = Some ls
    /\ @predictIndex constantTf m (@textToSequence asciiRuntime (lit "Buy now") v) = Some index
    /\ ls !! index = Some (lit "Promotions")
    /\ [@ModelPredict constantTf (@textToSequence asciiRuntime (lit "Buy now") V)]
       = [] ++ [ModelPredict (@textToSequence asciiRuntime (lit "Buy now") v)].
Proof.
  intros V this.
  apply (@predict_label_in_set asciiRuntime constantTf this (lit "Buy now")
           (lit "Promotions") []).
  reflexivity.
Defined.

(** X14 on the parts of a message with one text/plain part. *)
Lemma parseEmailBody_plain_witness :
  let parts := Some [mkPart (Some (lit "text/html")) (Some (lit "<p>hi</p>")) None;
                     mkPart (Some (lit "multipart/alternative")) None
                       (Some [mkPart (Some (lit "text/plain")) (Some (lit "hi")) None])] in
  exists ps q data,
    parts = Some ps /\ within q ps /\ plainText q data
    /\ @parseEmailBody asciiRuntime parts = @base64ToUtf8 asciiRuntime data.
Proof.
  intros parts. apply (@parseEmailBody_plain asciiRuntime parts).
  vm_compute. discriminate.
Defined.

(** X22 on the mailbox of one message. *)
Lemma webhook_label_from_set_witness :
  let classifier : @Classifier.Classifier constantTf :=
    {| model := Some (1 : @LayersModel constantTf);
       vocabulary := Some (@createVocabulary asciiRuntime [doc "sale buy now" "Promotions"]);
       labels := Some [lit "Promotions"] |} in
  success (json true None (Some (lit "Promotions"))) = true
  /\ status (json true None (Some (lit "Promotions"))) = 200
  /\ exists ls, labels classifier = Some ls /\ lit "Promotions" ∈ ls.
Proof.
  intros classifier.
  apply (@webhook_label_from_set asciiRuntime constantTf oneMailApi classifier
           (Some {| emailAddress := lit "me@example.com"; historyId := 7 |}) []
           [HistoryList 7; MessagesGet (lit "m1");
            ModelPredict (@textToSequence asciiRuntime (lit "Hitherefriend")
                            (@createVocabulary asciiRuntime [doc "sale buy now" "Promotions"]));
            LabelsList; MessagesModify (lit "m1") (lit "Label_1")]
           (json true None (Some (lit "Promotions"))) (lit "Promotions")).
  - vm_compute. reflexivity.
  - reflexivity.
Defined.

(** X23 on [arrangedDir]. *)
Lemma webhook_after_load_never_labels_witness :
  let emails := [doc "hello world" "A"; doc "bye" "B"] in
  let classifier : @Classifier.Classifier constantTf :=
    {| model := Some (2 : @LayersModel constantTf);
       vocabulary := Some (@createVocabulary asciiRuntime emails);
       labels := None |} in
  exists r calls,
    @webhook asciiRuntime constantTf oneMailApi classifier
      (Some {| emailAddress := lit "me@example.com"; historyId := 7 |}) []
    = (Ok r, [] ++ calls)
    /\ List.filter isPredict calls = []
    /\ List.filter isModify calls = []
    /\ predictedLabel r = None.
Proof.
  intros emails classifier.
  apply (@webhook_after_load_never_labels asciiRuntime constantTf oneMailApi
           arrangedDir classifier
           (Some {| emailAddress := lit "me@example.com"; historyId := 7 |}) []).
  vm_compute. reflexivity.
Defined.

(** X24 on a mailbox whose listings are all empty. *)
Lemma main_needs_data_witness :
  let log1 := [@MessagesList constantTf (lit "category:primary") 50 None;
               MessagesList (lit "category:promotions") 50 None;
               MessagesList (lit "category:social") 50 None] in
  replay (@main asciiRuntime constantTf blankMailApi 1 []).2
         ({[ VOCAB_PATH := VocabularyJson [] ]} : store)
  = replay [] ({[ VOCAB_PATH := VocabularyJson [] ]} : store)
  /\ (@Ok (list Document) [] = Ok [] ->
      @main asciiRuntime constantTf blankMailApi 1 []
      = (Ok tt,
         log1 ++ [ConsoleError ([10%N] ++ lit "Error: No training data found. Make sure the labels in `config.ts` exist and contain emails.");
                  ConsoleError (lit "Exiting training process.")])).
Proof.
  intros log1.
  apply (@main_needs_data asciiRuntime constantTf blankMailApi 1 [] log1
           {[ VOCAB_PATH := VocabularyJson [] ]} (Ok [])).
  - vm_compute. reflexivity.
  - discriminate.
Defined.

(** X25 on [pagedApi], each of whose listings yields two documents. *)
Lemma main_corpus_witness :
  exists docs,
    (@fetchLabels asciiRuntime constantTf pagedApi 2 LABELS_TO_TRAIN [] []).1 = Ok docs
    /\ length docs = 6
    /\ length docs <= 1500
    /\ Forall (fun d => label d ∈ LABELS_TO_TRAIN
                        /\ @fromMailbox asciiRuntime pagedApi (label d) d) docs.
Proof.
  eexists. split; [vm_compute; reflexivity |]. split; [reflexivity |].
  apply (@main_corpus asciiRuntime constantTf pagedApi) with
    (fuel := 2) (log := [])
    (log' := (@fetchLabels asciiRuntime constantTf pagedApi 2 LABELS_TO_TRAIN [] []).2).
  - intros q n [tok|] listResponse msgs [= <-] [= <-]; rewrite length_take; lia.
  - vm_compute. reflexivity.
Defined.

Lemma asciiLower_keeps (t : jsstring) :
  Forall (fun c => isWhiteSpace c = false) t ->
  Forall (fun c => isWhiteSpace c = false) (@toLowerCase asciiRuntime t).
Proof.
  intros Ht. apply Forall_fmap. eapply Forall_impl; [exact Ht |].
  intros c Hc. simpl. unfold asciiLower.
  destruct ((65 <=? c) && (c <=? 90))%N eqn:Hupper; [| exact Hc].
  apply andb_true_iff in Hupper as [Hlo Hhi].
  apply N.leb_le in Hlo. apply N.leb_le in Hhi.
  apply wordChar_not_whiteSpace. unfold isWordChar.
  replace (97 <=? c + 32)%N with true by (symmetry; apply N.leb_le; lia).
  replace (c + 32 <=? 122)%N with true by (symmetry; apply N.leb_le; lia).
  by rewrite !orb_true_r.
Qed.

(** X26 on the one message of [oneMailApi]. *)
Lemma inference_single_token_witness :
  length (@tokensOf asciiRuntime (lit "Hitherefriend")) <= 1
  /\ exists v, @textToSequence asciiRuntime (lit "Hitherefriend")
                 (@createVocabulary asciiRuntime [doc "hi there friend" "Primary"])
               = v :: replicate 99 (VNumber 0).
Proof.
  apply (@inference_single_token asciiRuntime constantTf oneMailApi (lit "m1")
           (lit "Hitherefriend")
           (@createVocabulary asciiRuntime [doc "hi there friend" "Primary"])
           [] [MessagesGet (lit "m1")]).
  - exact asciiLower_keeps.
  - vm_compute. reflexivity.
Defined.

(** X27 on [rejectingApi]. *)
Lemma webhook_reports_prediction_witness :
  let V := @createVocabulary asciiRuntime [doc "sale buy now" "Promotions"] in
  let classifier : @Classifier.Classifier constantTf :=
    {| model := Some (1 : @LayersModel constantTf);
       vocabulary := Some V;
       labels := Some [lit "Promotions"] |} in
  let log2 := [HistoryList 7; MessagesGet (lit "m1");
               ModelPredict (@textToSequence asciiRuntime (lit "Hitherefriend") V)] in
  exists calls,
    @webhook asciiRuntime constantTf rejectingApi classifier
      (Some {| emailAddress := lit "me@example.com"; historyId := 7 |}) []
    = (Ok (json true None (Some (lit "Promotions"))), log2 ++ LabelsList :: calls)
    /\ MessagesModify (lit "m1") (lit "Label_1") ∈ calls
    /\ (MessagesModify (lit "m1") (lit "Label_1") ∈ calls ->
        @messagesModify rejectingApi (lit "m1") (lit "Label_1") = None ->
        calls = [MessagesModify (lit "m1") (lit "Label_1");
                 ConsoleError (lit "Error applying label to " ++ lit "m1" ++ lit ":")]).
Proof.
  intros V classifier log2.
  destruct (@webhook_reports_prediction asciiRuntime constantTf rejectingApi classifier
              {| emailAddress := lit "me@example.com"; historyId := 7 |}
              {| history := Some [ {| messagesAdded :=
                   Some [ {| Gmail.message := Some (mail "m1" "Hi" "there friend") |} ] |} ] |}
              {| Gmail.message := Some (mail "m1" "Hi" "there friend") |} []
              (lit "m1") (Some (lit "Hitherefriend")) (lit "Hitherefriend")
              80%N (lit "romotions") []
              [HistoryList 7; MessagesGet (lit "m1")] log2
              eq_refl eq_refl eq_refl
              ltac:(vm_compute; reflexivity) ltac:(vm_compute; reflexivity)
              ltac:(vm_compute; reflexivity))
    as [calls [Hrun [_ [_ Hreject]]]].
  exists calls. split; [exact Hrun |]. split; [| apply Hreject].
  vm_compute in Hrun. injection Hrun as <-. constructor.
Defined.

End FurtherInstances.
